(** * monitoring_agent: subscription hub, controller synchronizer and API handlers

    A shallow embedding of
      - api/hub/hub.go          (second document of src/api/container.go),
      - api/container.go        (first document of src/api/container.go),
      - dock/controller         (src/unnamed/part_000, part_001),
      - api/api.go              (src/unnamed/part_002),
    together with the properties the specification states about them.

    Go pointers are modelled as addresses into explicit stores, so that
    identity ([==] on pointers) and aliasing are visible; Go maps are
    [gmap]s; slices are lists. *)

From stdpp Require Import gmap strings list fin_maps.

Open Scope string_scope.
Open Scope list_scope.
Open Scope nat_scope.

(** ** Pointers

    Addresses are natural numbers; the four names below only say what an
    address points to. *)

(** A [*Client]; equality is identity. *)
Abbreviation ClientPtr := nat (only parsing).
(** A [*container.Container], as handed out by the inventory. *)
Abbreviation ContainerPtr := nat (only parsing).
(** A [*Ressource]: the index of the cell in the hub's resource store. *)
Abbreviation ResPtr := nat (only parsing).
(** A [*ResponseFrame]: the index of the frame in the frame store. *)
Abbreviation FramePtr := nat (only parsing).

(** ** Demand, ResponseFrame *)

Module Demand.
(** type Demand struct { Ressource string; CID string; Client *Client } *)
Record t := mk { Ressource : string; CID : string; Client : ClientPtr }.
End Demand.

Module ResponseFrame.
(** [&ResponseFrame{CID: ..., Type: ..., Content: set.Data}]; the raw
    sample carried by [Content] is a string here. *)
Record t := mk { CID : string; Type_ : string; Content : string }.
End ResponseFrame.

(** ** Ressource *)

Module Ressource.

(** State of the underlying live stream of a Ressource. *)
Inductive stream := NoStream | Streaming | Cancelled.

(** The fields hub.go reads and writes: [ContainerID], [Event],
    [Receivers]; [Stream] stands for the stream behind [Data.In]. *)
Record t := mk {
  ContainerID : string;
  Event : string;
  Receivers : list ClientPtr;
  Stream : stream
}.

(** [&Ressource{}] *)
Definition zero : t := mk "" "" [] NoStream.

(** Modelled from the spec: the constructor [NewRessource(cid, event,
    client)] of ressource.go is not among the sources.  "Subscribe(C, K,
    client=A) with no existing resource => one Resource created, A in its
    receiver list". *)
Definition NewRessource (cid event : string) (c : ClientPtr) : t :=
  mk cid event [c] NoStream.

(** Modelled from the spec: [Ressource.SetStreamer] is not among the
    sources.  "binds the underlying live stream for the Resource's
    container". *)
Definition SetStreamer (r : t) : t :=
  mk (ContainerID r) (Event r) (Receivers r) Streaming.

(** Modelled from the spec: [Ressource.Quit] is not among the sources.
    "idempotent; signals the underlying stream to stop". *)
Definition Quit (r : t) : t :=
  mk (ContainerID r) (Event r) (Receivers r) Cancelled.

(** Modelled from the spec: [Ressource.RemoveClient] is not among the
    sources.  "remove this Client from [the] receiver list ... no dangling
    reference remains": every entry equal to [c] goes, the others keep
    their order. *)
Definition RemoveClient (c : ClientPtr) (r : t) : t :=
  mk (ContainerID r) (Event r)
     (filter (λ x, x ≠ c) (Receivers r)) (Stream r).

(** [res.Receivers = append(res.Receivers, c)] *)
Definition AddReceiver (c : ClientPtr) (r : t) : t :=
  mk (ContainerID r) (Event r) (Receivers r ++ [c]) (Stream r).

(** [r.ContainerID == cid && r.Event == event] *)
Definition matches (cid event : string) (r : t) : bool :=
  bool_decide (ContainerID r = cid) && bool_decide (Event r = event).

End Ressource.

(** ** Hub *)

Module Hub.

(** The lines the hub prints with [fmt] are diagnostics and are left out.

    The hub together with the stores its pointers point into.
    - [Ressources]: the registry, [map[*container.Container][]*Ressource];
    - [store]: every [Ressource] allocated so far, by address;
    - [frames]: every [ResponseFrame] allocated so far, by address;
    - [inbox]: per client, the frames sent on its [In] channel, in order;
    - [spawned]: the [go h.HandleRessource(container, r)] statements
      executed so far. *)
Record t := mk {
  Ressources : gmap ContainerPtr (list ResPtr);
  store : list Ressource.t;
  frames : list ResponseFrame.t;
  inbox : gmap ClientPtr (list FramePtr);
  spawned : list (ContainerPtr * ResPtr)
}.

(** [NewHub]: an empty registry. *)
Definition NewHub : t := mk ∅ [] [] ∅ [].

Definition set_Ressources (reg : gmap ContainerPtr (list ResPtr)) (h : t) : t :=
  mk reg (store h) (frames h) (inbox h) (spawned h).
Definition set_store (st : list Ressource.t) (h : t) : t :=
  mk (Ressources h) st (frames h) (inbox h) (spawned h).

(** [h.Ressources[c]]: the nil slice when the key is absent. *)
Definition slice_of (c : ContainerPtr) (h : t) : list ResPtr :=
  default [] (Ressources h !! c).

(** What a client has been sent so far. *)
Definition received (c : ClientPtr) (h : t) : list FramePtr :=
  default [] (inbox h !! c).

(** Write through a [*Ressource]. *)
Definition update (rp : ResPtr) (f : Ressource.t → Ressource.t) (h : t) : t :=
  set_store (alter f rp (store h)) h.

(** [len(r.Receivers) == 0]; every [*Ressource] of the program points into
    the store, the other case does not occur. *)
Definition no_receivers (rp : ResPtr) (h : t) : bool :=
  match store h !! rp with
  | Some r => bool_decide (Ressource.Receivers r = [])
  | None => true
  end.

(** [slices.Index(s, v)]: the first index of [v], [None] for -1. *)
Fixpoint slices_Index (s : list ResPtr) (v : ResPtr) : option nat :=
  match s with
  | [] => None
  | x :: s' => if decide (x = v) then Some 0 else S <$> slices_Index s' v
  end.

(** The scan of [Hub.Ressource]: the first resource of the slice whose
    [ContainerID] and [Event] match. *)
Fixpoint scan (st : list Ressource.t) (cid event : string)
         (ressources : list ResPtr) : option ResPtr :=
  match ressources with
  | [] => None
  | rp :: rest =>
      match st !! rp with
      | Some r => if Ressource.matches cid event r then Some rp
                  else scan st cid event rest
      | None => scan st cid event rest
      end
  end.

(** *** The fan-out goroutine *)

(** [In <- frame] on one client: the frame joins what the client has been
    sent.  The send is taken to complete; a client that never receives
    blocks the loop at this statement. *)
Definition send (frame : FramePtr) (ib : gmap ClientPtr (list FramePtr))
           (c : ClientPtr) : gmap ClientPtr (list FramePtr) :=
  <[c := default [] (ib !! c) ++ [frame]]> ib.

(** One iteration of [for set := range r.Data.In], up to [RUnlock]: the
    frame is allocated once and its address is sent to every entry of
    [r.Receivers], in slice order. *)
Definition deliver (rp : ResPtr) (data : string) (h : t) : t :=
  match store h !! rp with
  | None => h
  | Some r =>
      let frame := length (frames h) in
      mk (Ressources h) (store h)
         (frames h ++ [ResponseFrame.mk (Ressource.ContainerID r)
                         (Ressource.Event r) data])
         (foldl (send frame) (inbox h) (Ressource.Receivers r))
         (spawned h)
  end.

(** The loop of [HandleRessource] over what [r.Data.In] yields before it
    is closed, when nothing else runs in between; [break] after an
    iteration that ends with no receiver. *)
Fixpoint fanout (rp : ResPtr) (sets : list string) (h : t) : t :=
  match sets with
  | [] => h
  | set :: rest =>
      let h' := deliver rp set h in
      if no_receivers rp h' then h' else fanout rp rest h'
  end.

(** [RemoveRessource], lines 185-188: what is read before
    [h.mutex.Lock()].  The result is the slice read from the registry and
    the index found in it, when the receiver list is empty and the
    resource is in the slice. *)
Definition RemoveRessource_check (c : ContainerPtr) (rp : ResPtr) (h : t)
  : option (list ResPtr * nat) :=
  if no_receivers rp h then
    let ressources := slice_of c h in
    match slices_Index ressources rp with
    | Some rIdx => Some (ressources, rIdx)
    | None => None
    end
  else None.

(** [RemoveRessource], lines 189-194: what runs between [Lock] and
    [Unlock], on the slice and the index obtained before.  [None] is the
    panic of an index out of range, in [h.Ressources[c][rIdx] = ...] or in
    [ressources[rIdx+1:]].  The slice read before is taken by value: that is
    what the source does as long as no other [RemoveRessource] has moved the
    elements of the container's slice since the read ([Subscribe] only
    appends to it). *)
Definition RemoveRessource_locked (c : ContainerPtr)
           (found : list ResPtr * nat) (h : t) : option t :=
  let '(ressources, rIdx) := found in
  if decide (rIdx < length (slice_of c h) ∧ rIdx < length ressources) then
    let z := length (store h) in
    let h1 := mk (<[c := <[rIdx := z]> (slice_of c h)]> (Ressources h))
                 (store h ++ [Ressource.zero])
                 (frames h) (inbox h) (spawned h) in
    Some (set_Ressources
            (<[c := take rIdx ressources ++ drop (S rIdx) ressources]>
               (Ressources h1)) h1)
  else None.

(** func (h *Hub) RemoveRessource(c *container.Container, r *Ressource),
    run without anything in between its two parts. *)
Definition RemoveRessource (c : ContainerPtr) (rp : ResPtr) (h : t) : t :=
  match RemoveRessource_check c rp h with
  | None => h
  | Some found => default h (RemoveRessource_locked c found h)
  end.

(** func (h *Hub) HandleRessource(container *container.Container, r *Ressource),
    on the sets its stream yields, run without anything in between. *)
Definition HandleRessource (container : ContainerPtr) (rp : ResPtr)
           (sets : list string) (h : t) : t :=
  let h1 := update rp Ressource.SetStreamer h in
  let h2 := fanout rp sets h1 in
  let h3 := update rp Ressource.Quit h2 in
  RemoveRessource container rp h3.

Section WithInventory.

(** [h.Ctr.ContainerGet]: the inventory's lookup by id, an external
    collaborator; [None] is [exists == false]. *)
Variable ContainerGet : string → option ContainerPtr.

(** func (h *Hub) Ressource(cid string, event string) (r *Ressource, exists bool) *)
Definition Ressource (cid event : string) (h : t) : option ResPtr :=
  match ContainerGet cid with
  | None => None
  | Some container =>
      match Ressources h !! container with
      | Some ressources => scan (store h) cid event ressources
      | None => None
      end
  end.

(** func (h *Hub) Subscribe(dem *Demand) *)
Definition Subscribe (dem : Demand.t) (h : t) : t :=
  match ContainerGet (Demand.CID dem) with
  | None => h
  | Some container =>
      match Ressource (Demand.CID dem) (Demand.Ressource dem) h with
      | None =>
          let r := length (store h) in
          mk (<[container := slice_of container h ++ [r]]> (Ressources h))
             (store h ++ [Ressource.NewRessource (Demand.CID dem)
                            (Demand.Ressource dem) (Demand.Client dem)])
             (frames h) (inbox h)
             (spawned h ++ [(container, r)])
      | Some res => update res (Ressource.AddReceiver (Demand.Client dem)) h
      end
  end.

(** func (h *Hub) Unsubscribe(dem *Demand) *)
Definition Unsubscribe (dem : Demand.t) (h : t) : t :=
  match ContainerGet (Demand.CID dem) with
  | None => h
  | Some _ =>
      match Ressource (Demand.CID dem) (Demand.Ressource dem) h with
      | Some res =>
          match store h !! res with
          | Some r =>
              if bool_decide (Demand.Client dem ∈ Ressource.Receivers r)
              then update res (Ressource.RemoveClient (Demand.Client dem)) h
              else h
          | None => h
          end
      | None => h
      end
  end.

End WithInventory.

(** func (h *Hub) ClientLeave(c *Client): both loops of the source, over
    the registry's entries and over each entry's slice. *)
Definition ClientLeave (c : ClientPtr) (h : t) : t :=
  foldl (λ h' entry,
           foldl (λ h'' res, update res (Ressource.RemoveClient c) h'')
                 h' entry.2)
        h (map_to_list (Ressources h)).

(** *** The control loop *)

(** type Endpoints struct: per channel, the values its senders offer, the
    one offered first at the head.  [Relay] carries [*stream.Set]. *)
Record Endpoints := mkEndpoints {
  Eps_Subscribe : list Demand.t;
  Eps_Unsubscribe : list Demand.t;
  Eps_Leave : list ClientPtr;
  Eps_Relay : list string
}.

(** The cases of the [select] statement of [Run]. *)
Inductive select_case := CaseSubscribe | CaseUnsubscribe | CaseLeave.

Section Run.

Variable ContainerGet : string → option ContainerPtr.

(** One iteration of [for { select { ... } }] that proceeds with the
    given case; [None] when that case cannot proceed (nothing is offered
    on its channel). *)
Definition Run_select (pick : select_case) (s : Endpoints * t)
  : option (Endpoints * t) :=
  let '(eps, h) := s in
  match pick with
  | CaseSubscribe =>
      match Eps_Subscribe eps with
      | dem :: rest =>
          Some (mkEndpoints rest (Eps_Unsubscribe eps) (Eps_Leave eps)
                  (Eps_Relay eps),
                Subscribe ContainerGet dem h)
      | [] => None
      end
  | CaseUnsubscribe =>
      match Eps_Unsubscribe eps with
      | dem :: rest =>
          Some (mkEndpoints (Eps_Subscribe eps) rest (Eps_Leave eps)
                  (Eps_Relay eps),
                Unsubscribe ContainerGet dem h)
      | [] => None
      end
  | CaseLeave =>
      match Eps_Leave eps with
      | client :: rest =>
          Some (mkEndpoints (Eps_Subscribe eps) (Eps_Unsubscribe eps) rest
                  (Eps_Relay eps),
                ClientLeave client h)
      | [] => None
      end
  end.

(** func (h *Hub) Run(): the iterations of the loop along a schedule of
    cases; a case that cannot proceed is not taken. *)
Fixpoint Run (picks : list select_case) (s : Endpoints * t)
  : Endpoints * t :=
  match picks with
  | [] => s
  | pick :: rest =>
      match Run_select pick s with
      | Some s' => Run rest s'
      | None => Run rest s
      end
  end.

(** *** Interleavings

    The statements of the control loop and of the fan-out goroutines,
    each run as a whole, in any order. *)
Inductive op :=
| OpSubscribe (dem : Demand.t)
| OpUnsubscribe (dem : Demand.t)
| OpClientLeave (c : ClientPtr)
| OpSetStreamer (rp : ResPtr)
| OpDeliver (rp : ResPtr) (data : string)
| OpQuit (rp : ResPtr)
| OpRemoveRessource (c : ContainerPtr) (rp : ResPtr).

Definition exec (h : t) (o : op) : t :=
  match o with
  | OpSubscribe dem => Subscribe ContainerGet dem h
  | OpUnsubscribe dem => Unsubscribe ContainerGet dem h
  | OpClientLeave c => ClientLeave c h
  | OpSetStreamer rp => update rp Ressource.SetStreamer h
  | OpDeliver rp data => deliver rp data h
  | OpQuit rp => update rp Ressource.Quit h
  | OpRemoveRessource c rp => RemoveRessource c rp h
  end.

Definition run (ops : list op) (h : t) : t := foldl exec h ops.

(** *** The goroutines, statement by statement *)

(** Where a goroutine [h.HandleRessource(container, r)] stands: before
    [r.SetStreamer(container)], at the [range] of its loop, at the test
    [len(r.Receivers) == 0] that ends a round, before [r.Quit()], before
    [h.RemoveRessource(container, r)], or after it. *)
Inductive pc :=
  AtSetStreamer | AtRange | AtTest | AtQuit | AtRemoveRessource | Returned.

(** The container the goroutine of a resource was started with. *)
Fixpoint started_with (rp : ResPtr) (sp : list (ContainerPtr * ResPtr))
  : option ContainerPtr :=
  match sp with
  | [] => None
  | (c, rp') :: rest => if decide (rp' = rp) then Some c else started_with rp rest
  end.

(** A goroutine that has not run yet stands at its first statement. *)
Definition pc_of (pcs : gmap ResPtr pc) (rp : ResPtr) : pc :=
  default AtSetStreamer (pcs !! rp).

(** The next statement of the goroutine of [rp].  At the [range], [next] is
    what the channel yields: a set, for which the body of the loop runs up
    to [RUnlock], or [None] when the channel is closed.  The test then leaves
    the loop or not.  Elsewhere [next] is not read. *)
Definition goroutine_step (rp : ResPtr) (next : option string)
           (s : t * gmap ResPtr pc) : t * gmap ResPtr pc :=
  let '(h, pcs) := s in
  match started_with rp (spawned h) with
  | None => s
  | Some container =>
      match pc_of pcs rp with
      | AtSetStreamer =>
          (update rp Ressource.SetStreamer h, <[rp := AtRange]> pcs)
      | AtRange =>
          match next with
          | Some set => (deliver rp set h, <[rp := AtTest]> pcs)
          | None => (h, <[rp := AtQuit]> pcs)
          end
      | AtTest =>
          (h, <[rp := if no_receivers rp h then AtQuit else AtRange]> pcs)
      | AtQuit => (update rp Ressource.Quit h, <[rp := AtRemoveRessource]> pcs)
      | AtRemoveRessource =>
          (RemoveRessource container rp h, <[rp := Returned]> pcs)
      | Returned => s
      end
  end.

(** What happens next in the process: the control loop serves a value of
    one of its channels, or a goroutine runs its next statement. *)
Inductive event :=
| Serve_Subscribe (dem : Demand.t)
| Serve_Unsubscribe (dem : Demand.t)
| Serve_Leave (client : ClientPtr)
| Goroutine (rp : ResPtr) (next : option string).

Definition step (s : t * gmap ResPtr pc) (e : event) : t * gmap ResPtr pc :=
  match e with
  | Serve_Subscribe dem => (Subscribe ContainerGet dem s.1, s.2)
  | Serve_Unsubscribe dem => (Unsubscribe ContainerGet dem s.1, s.2)
  | Serve_Leave client => (ClientLeave client s.1, s.2)
  | Goroutine rp next => goroutine_step rp next s
  end.

(** The state after a schedule of events, from [NewHub]. *)
Definition schedule (evs : list event) : t * gmap ResPtr pc :=
  foldl step (NewHub, ∅) evs.

End Run.

End Hub.

(** ** Controller *)

Module Controller.

(** [dock_events.Message], the fields the handler reads. *)
Record Message := mkMessage { Type_ : string; Status : string; ID : string }.

(** [dock_events.ContainerEventType], a constant of the engine's API. *)
Definition ContainerEventType : string := "container".

(** [set.Data], an [interface{}]: a [dock_events.Message] or anything
    else. *)
Inductive Data := IsMessage (event : Message) | NotMessage.

Inductive level := Info | Warn | Error.

(** What the controller does to the outside, in order: standard output,
    logrus entries (the format string as the source writes it, and its
    arguments), calls on the inventory stores and on the sink, goroutines
    started. *)
Inductive effect :=
| Println (line : string)
| Log (lvl : level) (format : string) (args : list string)
| Containers_Add (id : string)
| Containers_Stop (id : string)
| Containers_Remove (id : string)
| Panic
| Events_Init
| Images_Init
| Containers_Init
| DB_Init
| Go_HandleEvents
| Go_BroadcastWriter
| UpdateAbout
| UpdateVolumes.

(** The entries that are calls of [Containers.Add/Stop/Remove]. *)
Definition is_inventory_call (e : effect) : bool :=
  match e with
  | Containers_Add _ | Containers_Stop _ | Containers_Remove _ => true
  | _ => false
  end.

(** The entries written through logrus. *)
Definition is_log (e : effect) : bool :=
  match e with Log _ _ _ => true | _ => false end.

Definition inventory_calls (tr : list effect) : list effect :=
  List.filter is_inventory_call tr.

Definition logs (tr : list effect) : list effect := List.filter is_log tr.

(** func logEventExec(err error, e dock_events.Message) *)
Definition logEventExec (err : option string) (e : Message) : list effect :=
  match err with
  | Some msg =>
      [Log Error "- CONTROLLER - exec of event %s failed: %s\n" [Status e; msg]]
  | None =>
      [Log Info "- CONTROLLER - exec of event %s successful\n" [Status e]]
  end.

Section WithInventory.

(** The container store, an external collaborator: its state and its
    three mutations, each returning the new state and [error]. *)
Variable Inventory : Type.
Variable Add Stop Remove : string → Inventory → Inventory * option string.

(** func (ctr *Controller) ContainerStart(e dock_events.Message) *)
Definition ContainerStart (e : Message) (inv : Inventory)
  : Inventory * list effect :=
  let '(inv', err) := Add (ID e) inv in
  (inv', Containers_Add (ID e) :: logEventExec err e).

(** func (ctr *Controller) ContainerStop(e dock_events.Message) *)
Definition ContainerStop (e : Message) (inv : Inventory)
  : Inventory * list effect :=
  let '(inv', err) := Stop (ID e) inv in
  (inv', Containers_Stop (ID e) :: logEventExec err e).

(** func (ctr *Controller) ContainerDestroy(e dock_events.Message) *)
Definition ContainerDestroy (e : Message) (inv : Inventory)
  : Inventory * list effect :=
  let '(inv', err) := Remove (ID e) inv in
  (inv', Containers_Remove (ID e) :: logEventExec err e).

(** The body of the loop of [HandleEvents] (part_000, lines 81-96) once
    the type assertion has succeeded. *)
Definition handle (event : Message) (inv : Inventory)
  : Inventory * list effect :=
  if negb (String.eqb (Type_ event) ContainerEventType) then
    (inv, [Println "handling event"])
  else
    let '(inv', tr) :=
      if String.eqb (Status event) "start" then ContainerStart event inv
      else if String.eqb (Status event) "stop" then ContainerStop event inv
      else if String.eqb (Status event) "destroy" then
             ContainerDestroy event inv
      else (inv,
            [Log Warn "- CONTROLLER - event %s is unkown or not implemented\n"
               [Status event]])
    in (inv', Println "handling event" :: tr).

(** The same body in the later revision of the file (second document of
    part_000, lines 294-310): a container event is followed by
    [ctr.UpdateAbout()], whose result is dropped. *)
Definition handle_with_about (event : Message) (inv : Inventory)
  : Inventory * list effect :=
  if negb (String.eqb (Type_ event) ContainerEventType) then
    (inv, [Println "handling event"])
  else
    let '(inv', tr) := handle event inv in (inv', tr ++ [UpdateAbout]).

(** [for set := range eventRcv.In { ... }] over what the channel yields
    before it is closed; [set.Data.(dock_events.Message)] panics on
    anything that is not a message. *)
Fixpoint handle_all (sets : list Data) (inv : Inventory)
  : Inventory * list effect :=
  match sets with
  | [] => (inv, [])
  | NotMessage :: _ => (inv, [Println "handling event"; Panic])
  | IsMessage event :: rest =>
      let '(inv1, tr1) := handle event inv in
      let '(inv2, tr2) := handle_all rest inv1 in
      (inv2, tr1 ++ tr2)
  end.

(** func (ctr *Controller) HandleEvents(); [get] is the result of
    [ctr.Events.Get()]: the sets of the receiver's channel, or an
    error. *)
Definition HandleEvents (get : list Data + string) (inv : Inventory)
  : Inventory * list effect :=
  match get with
  | inr err =>
      (inv, [Log Error "- CONTROLLER - failed to run event handler: %s\n" [err]])
  | inl sets =>
      let '(inv', tr) := handle_all sets inv in
      (inv', Log Info "- CONTROLLER - running event handler..." [] :: tr)
  end.

End WithInventory.

(** What the collaborators' [Init] methods return at startup: [None] is
    [nil], [Some msg] an error. *)
Record Startup := mkStartup {
  events_init : option string;
  images_init : option string;
  containers_init : option string;
  db_init : option string
}.

(** The statements of [Init] from [ctr.Events.Init()] on, the same in both
    revisions of the file: the returned error and what was done. *)
Definition Init_from_Events (s : Startup) : option string * list effect :=
  let tr0 := [Events_Init] in
  match events_init s with
  | Some err => (Some err, tr0)
  | None =>
      let tr1 := tr0 ++ [Go_HandleEvents; Images_Init] in
      match images_init s with
      | Some err =>
          (Some err,
           tr1 ++ [Log Error "- STORAGE - (images) failed to init: %s\n" [err]])
      | None =>
          let tr2 := tr1 ++ [Containers_Init] in
          match containers_init s with
          | Some err =>
              (Some err,
               tr2 ++ [Log Error "- STORAGE - (containers) failed to init: %s\n"
                         [err]])
          | None =>
              let tr3 := tr2 ++ [Go_BroadcastWriter; DB_Init] in
              match db_init s with
              | Some err =>
                  (Some err,
                   tr3 ++ [Log Error "- STORAGE - (db) failed to init: %s\n" [err]])
              | None => (None, tr3)
              end
          end
      end
  end.

(** func (ctr *Controller) Init() (err error) (part_000, lines 39-70). *)
Definition Init (s : Startup) : option string * list effect :=
  let '(err, tr) := Init_from_Events s in
  (err, Log Info "- CONTROLLER - starting" [] :: tr).

(** [Init] in the later revision of the file (second document of part_000,
    lines 189-230): before [ctr.Events.Init()] it calls [UpdateAbout] and
    [UpdateVolumes], whose errors, [about] and [volumes], are logged as
    warnings and overwritten. *)
Definition Init_with_about (about volumes : option string) (s : Startup)
  : option string * list effect :=
  let warning (format : string) (err : option string) : list effect :=
    match err with
    | Some msg => [Log Warn format [msg]]
    | None => []
    end in
  let '(err, tr) := Init_from_Events s in
  (err,
   Log Info "- CONTROLLER - starting" []
   :: UpdateAbout
   :: warning "- CONTROLLER - about might not be complete, err: %s\n" about
   ++ UpdateVolumes
   :: warning "- CONTROLLER - volumes might not be complete, err: %s\n" volumes
   ++ tr).

(** func (s *Storage) Init() (err error) (part_001, lines 88-114). *)
Definition Storage_Init (s : Startup) : option string * list effect :=
  let tr1 := [Images_Init] in
  match images_init s with
  | Some err =>
      (Some err,
       tr1 ++ [Log Error "- STORAGE - (images) failed to init: %s\n" [err]])
  | None =>
      let tr2 := tr1 ++ [Containers_Init] in
      match containers_init s with
      | Some err =>
          (Some err,
           tr2 ++ [Log Error "- STORAGE - (containers) failed to init: %s\n"
                     [err]])
      | None =>
          let tr3 := tr2 ++ [Go_BroadcastWriter; DB_Init] in
          match db_init s with
          | Some err =>
              (None,
               tr3 ++ [Log Error "- STORAGE - (db) failed to init: %s\n" [err]])
          | None => (None, tr3)
          end
      end
  end.

End Controller.

(** ** API *)

Module API.

(** What [API.Run] does, in order. *)
Inductive run_step :=
| Controller_Init (e : Controller.effect)
| Go_Hub_Run
| Router_Run (addr : string).

(** func (api *API) Run() (part_002, lines 47-51): the value returned by
    [api.Controller.Init()] is not bound to anything. *)
Definition Run (addr : string) (s : Controller.Startup) : list run_step :=
  let '(_, tr) := Controller.Init s in
  (Controller_Init <$> tr) ++ [Go_Hub_Run; Router_Run addr].

(** [http.StatusOK], [http.StatusNotFound], [http.StatusInternalServerError] *)
Definition StatusOK : nat := 200.
Definition StatusNotFound : nat := 404.
Definition StatusInternalServerError : nat := 500.

(** What a handler writes: an error response ([HttpErr], or the bytes of
    [HttpErrBytes] through [w.Write]), a body, a websocket message, the
    closing of the connection, the value sent on [done]. *)
Inductive output :=
| HttpErr (status : nat) (err : string)
| CtxData (status : nat) (contentType : string) (body : string)
| WriteJSON (type : string) (content : string)
| Close
| Done.

(** [&dock.Container{}]: a new variable.  [allocated] counts the variables
    that exist; their addresses are [1 .. allocated], and [0] is [nil].
    [dock.Container] has fields (the handlers read [container.Logs]), so it
    is not one of the zero-size types, for which Go leaves the equality of
    pointers open. *)
Definition new_Container (allocated : nat) : ContainerPtr * nat :=
  (S allocated, S allocated).

Section Handlers.

(** [api.Controller.Container(id)]: the inventory's lookup, an external
    collaborator. *)
Variable Controller_Container : string → ContainerPtr.
(** [container.MarshalJSON()]: the bytes, or an error. *)
Variable MarshalJSON : ContainerPtr → string + string.
(** [container.MetricsStream(done)] and [container.Logs.Stream(done)]:
    what the channel yields before it is closed. *)
Variable MetricsStream : ContainerPtr → list string.
Variable Logs_Stream : ContainerPtr → list string.
(** [con.WriteJSON(msg)]: the error returned for a message. *)
Variable con_WriteJSON : string → string → option string.

(** func (api *API) Container(ctx *gin.Context) *)
Definition Container (allocated : nat) (id : string) : list output :=
  let container := Controller_Container id in
  let '(empty, _) := new_Container allocated in
  if decide (container = empty) then
    [HttpErr StatusNotFound "container not found"]
  else
    match MarshalJSON container with
    | inr err => [HttpErr StatusInternalServerError err]
    | inl contJson =>
        [CtxData StatusOK "application/json; charset=utf-8" contJson]
    end.

(** The loop of [metricsWS]: [err] is tested before each write. *)
Fixpoint metrics_loop (metrics : list string) (err : option string)
  : list output :=
  match metrics with
  | [] => []
  | set :: rest =>
      match err with
      | Some _ => [Close]
      | None =>
          WriteJSON "metric_set" set
          :: metrics_loop rest (con_WriteJSON "metric_set" set)
      end
  end.

(** func (api *API) metricsWS(w, r, id); [upgrade] is the error of
    [upgrade.Upgrade(w, r, nil)]. *)
Definition metricsWS (upgrade : option string) (allocated : nat)
           (id : string) : list output :=
  match upgrade with
  | Some err => [HttpErr 500 err]
  | None =>
      let container := Controller_Container id in
      let '(empty, _) := new_Container allocated in
      if decide (container = empty) then
        [HttpErr 404 "container not found"]
      else metrics_loop (MetricsStream container) None
  end.

(** The loop of [logsWS] and what follows it. *)
Fixpoint logs_loop (entries : list string) : list output :=
  match entries with
  | [] => [Done; Close]
  | entry :: rest =>
      WriteJSON "entry" entry
      :: match con_WriteJSON "entry" entry with
         | Some _ => [Close]
         | None => logs_loop rest
         end
  end.

(** func (api *API) logsWS(w, r, id) *)
Definition logsWS (upgrade : option string) (allocated : nat)
           (id : string) : list output :=
  match upgrade with
  | Some err => [HttpErr 500 err]
  | None =>
      let container := Controller_Container id in
      let '(empty, _) := new_Container allocated in
      if decide (container = empty) then
        [HttpErr 404 "container not found"]
      else logs_loop (Logs_Stream container)
  end.

End Handlers.

End API.

(** ** About, Volumes (second document of part_000) *)

Module About.

(** type About struct; the two counts are Go [int]s, copied from the
    engine's answer and never computed with. *)
Record t := mk {
  Version : string;
  APIVersion : string;
  OS : string;
  ImageN : Z;
  ContainerN : Z
}.

(** [types.Version] and [types.Info] of the engine's API: the fields
    [UpdateAbout] reads. *)
Record ServerVersion_t := mkServerVersion {
  sv_Version : string; sv_APIVersion : string; sv_Os : string
}.
Record Info_t := mkInfo { Images : Z; Containers : Z }.

(** func (ctr *Controller) UpdateAbout() (err error); [ServerVersion] and
    [Info] are what the two calls on the engine's client return, the
    answer or an error.  The result is [ctr.About] after the call and the
    returned error. *)
Definition UpdateAbout (ServerVersion : ServerVersion_t + string)
           (Info : Info_t + string) (about : t) : t * option string :=
  match ServerVersion with
  | inr err => (about, Some err)
  | inl version =>
      let about1 := mk (sv_Version version) (sv_APIVersion version)
                       (sv_Os version) (ImageN about) (ContainerN about) in
      match Info with
      | inr err => (about1, Some err)
      | inl info =>
          (mk (Version about1) (APIVersion about1) (OS about1)
              (Images info) (Containers info), None)
      end
  end.

End About.

Module Volume.

(** type Volume struct; [UsedBy] and [Size] are [int64]s, copied or set to
    the constant -1. *)
Record t := mk {
  Name : string;
  Mountpoint : string;
  Driver : string;
  Created : string;
  UsedBy : Z;
  Size : Z
}.

(** [volume.UsageData] and [volume.Volume] of the engine's API: the fields
    [UpdateVolumes] reads; [UsageData] is a pointer, [None] is [nil]. *)
Record UsageData_t := mkUsageData { RefCount : Z; u_Size : Z }.
Record engine := mkEngine {
  e_Name : string;
  e_Mountpoint : string;
  e_Driver : string;
  e_CreatedAt : string;
  UsageData : option UsageData_t
}.

(** The body of the loop of [UpdateVolumes] up to [new := &Volume{...}]. *)
Definition new (v : engine) : t :=
  let '(usedBy, size) :=
    match UsageData v with
    | None => ((-1)%Z, (-1)%Z)
    | Some usage => (RefCount usage, u_Size usage)
    end in
  mk (e_Name v) (e_Mountpoint v) (e_Driver v) (e_CreatedAt v) usedBy size.

(** func (ctr *Controller) UpdateVolumes() (err error); [VolumeList] is
    what the call on the engine's client returns, [volList.Volumes] or an
    error; the entries of the list are taken to be non-nil, as the client
    decodes them.  The result is [ctr.Volumes] after the call and the
    returned error. *)
Definition UpdateVolumes (VolumeList : list engine + string)
           (volumes : list t) : list t * option string :=
  match VolumeList with
  | inr err => (volumes, Some err)
  | inl volList =>
      (foldl (λ updated v, updated ++ [new v]) [] volList, None)
  end.

End Volume.

(** ** The controller over a Storage (controller.go of part_001) *)

Module StorageController.

(** What [Init] does to the outside, in order. *)
Inductive effect (RawType : Type) :=
| Storage_Discover
| Storage_Add (rawTypes : list RawType)
| Go_Storage_Links
| Storage_DB_Init
| Infoln (line : string).

Arguments Storage_Discover {RawType}.
Arguments Storage_Add {RawType} rawTypes.
Arguments Go_Storage_Links {RawType}.
Arguments Storage_DB_Init {RawType}.
Arguments Infoln {RawType} line.

(** func (ctr *Controller) Init() error (part_001, lines 26-40);
    [Discover], [Add] and [DB_Init] are what [ctr.Storage.Discover()],
    [ctr.Storage.Add(rawTypes...)] and [ctr.Storage.DB.Init()] return. *)
Definition Init {RawType : Type} (Discover : list RawType + string)
           (Add : list RawType → option string) (DB_Init : option string)
  : option string * list (effect RawType) :=
  match Discover with
  | inr err => (Some err, [Storage_Discover])
  | inl rawTypes =>
      match Add rawTypes with
      | Some err => (Some err, [Storage_Discover; Storage_Add rawTypes])
      | None =>
          (DB_Init,
           [Storage_Discover; Storage_Add rawTypes; Go_Storage_Links;
            Storage_DB_Init; Infoln "- CONTROLLER - started"])
      end
  end.

End StorageController.

(** ** The event handler of the later revision (second document of part_000) *)

Module ControllerAbout.

Section WithInventory.

Variable Inventory : Type.
Variable Add Stop Remove : string → Inventory → Inventory * option string.

(** [for set := range eventRcv.In { ... }] in the later revision of the
    file (second document of part_000, lines 293-311). *)
Fixpoint handle_all (sets : list Controller.Data) (inv : Inventory)
  : Inventory * list Controller.effect :=
  match sets with
  | [] => (inv, [])
  | Controller.NotMessage :: _ =>
      (inv, [Controller.Println "handling event"; Controller.Panic])
  | Controller.IsMessage event :: rest =>
      let '(inv1, tr1) :=
        Controller.handle_with_about Inventory Add Stop Remove event inv in
      let '(inv2, tr2) := handle_all rest inv1 in
      (inv2, tr1 ++ tr2)
  end.

(** func (ctr *Controller) HandleEvents() in the later revision (lines
    285-312). *)
Definition HandleEvents (get : list Controller.Data + string) (inv : Inventory)
  : Inventory * list Controller.effect :=
  match get with
  | inr err =>
      (inv, [Controller.Log Controller.Error
               "- CONTROLLER - failed to run event handler: %s\n" [err]])
  | inl sets =>
      let '(inv', tr) := handle_all sets inv in
      (inv', Controller.Log Controller.Info
               "- CONTROLLER - running event handler..." [] :: tr)
  end.

End WithInventory.

End ControllerAbout.

(** ** Vocabulary of the properties *)

(** [res.RemoveClient(c)] on each resource of a slice: the inner loop of
    [ClientLeave]. *)
Definition leave_slice (c : ClientPtr) (h : Hub.t) (ressources : list ResPtr)
  : Hub.t :=
  foldl (λ h' res, Hub.update res (Ressource.RemoveClient c) h') h ressources.

(** A resource pointer is registered when some slice of the registry holds
    it. *)
Definition registered (h : Hub.t) (rp : ResPtr) : Prop :=
  ∃ c ressources, Hub.Ressources h !! c = Some ressources ∧ rp ∈ ressources.

(** The resource is held by the slice registered for the container. *)
Definition registered_under (h : Hub.t) (c : ContainerPtr) (rp : ResPtr) : Prop :=
  ∃ ressources, Hub.Ressources h !! c = Some ressources ∧ rp ∈ ressources.

(** The identity of a resource as [Hub.Ressource] compares it: container id
    and kind. *)
Definition key_of (st : list Ressource.t) (rp : ResPtr) : option (string * string) :=
  (λ r, (Ressource.ContainerID r, Ressource.Event r)) <$> st !! rp.

(** The registry invariant: registered pointers are allocated, under the
    container the inventory gives for their id; the resources of a slice
    have pairwise different identities; every registered resource has its
    fan-out goroutine, and no resource has two. *)
Record wf (ContainerGet : string → option ContainerPtr) (h : Hub.t) : Prop := mk_wf {
  wf_bound : ∀ c rp, registered_under h c rp →
    ∃ r, Hub.store h !! rp = Some r
         ∧ ContainerGet (Ressource.ContainerID r) = Some c;
  wf_keys : ∀ c ressources, Hub.Ressources h !! c = Some ressources →
    NoDup (key_of (Hub.store h) <$> ressources);
  wf_spawned : ∀ c rp, registered_under h c rp → (c, rp) ∈ Hub.spawned h;
  wf_spawned_bound : ∀ c rp, (c, rp) ∈ Hub.spawned h → rp < length (Hub.store h);
  wf_spawned_nodup : NoDup (Hub.spawned h).*2
}.

(** The stores of two states hold the same identities at the addresses of
    the first. *)
Definition ids_kept (st st' : list Ressource.t) : Prop :=
  ∀ rp r, st !! rp = Some r →
    ∃ r', st' !! rp = Some r'
          ∧ Ressource.ContainerID r' = Ressource.ContainerID r
          ∧ Ressource.Event r' = Ressource.Event r.

(** An inventory with one container, ["c1"], and two demands for its
    metrics and one for its logs, used in the examples. *)
Definition inventory1 (cid : string) : option ContainerPtr :=
  if String.eqb cid "c1" then Some 1 else None.
Definition demand_A : Demand.t := Demand.mk "metrics" "c1" 10.
Definition demand_B : Demand.t := Demand.mk "metrics" "c1" 11.
Definition demand_logs : Demand.t := Demand.mk "logs" "c1" 12.








(** [break], [r.Quit()] and [h.RemoveRessource(container, r)]: what
    [HandleRessource] does once it leaves its loop. *)
Definition teardown (container : ContainerPtr) (rp : ResPtr) (h : Hub.t) : Hub.t :=
  Hub.RemoveRessource container rp (Hub.update rp Ressource.Quit h).

(** The value a statement of the control loop was handed, per channel. *)
Definition served_Subscribe (o : Hub.op) : option Demand.t :=
  match o with Hub.OpSubscribe dem => Some dem | _ => None end.
Definition served_Unsubscribe (o : Hub.op) : option Demand.t :=
  match o with Hub.OpUnsubscribe dem => Some dem | _ => None end.
Definition served_Leave (o : Hub.op) : option ClientPtr :=
  match o with Hub.OpClientLeave client => Some client | _ => None end.






(** Every receiver entry goes back to a served demand for a container the
    inventory knows, and so does every frame a client has been sent. *)
Definition demanded (ContainerGet : string → option ContainerPtr)
           (hist : list Hub.event) (h : Hub.t) : Prop :=
  (∀ rp r c, Hub.store h !! rp = Some r → c ∈ Ressource.Receivers r →
     Hub.Serve_Subscribe (Demand.mk (Ressource.Event r) (Ressource.ContainerID r) c)
     ∈ hist
     ∧ is_Some (ContainerGet (Ressource.ContainerID r)))
  ∧ (∀ c f, f ∈ Hub.received c h →
       ∃ fr, Hub.frames h !! f = Some fr
             ∧ Hub.Serve_Subscribe
                 (Demand.mk (ResponseFrame.Type_ fr) (ResponseFrame.CID fr) c)
               ∈ hist
             ∧ is_Some (ContainerGet (ResponseFrame.CID fr))).




(** The call on the inventory that the switch of [HandleEvents] selects for
    an event, if any. *)
Definition dispatch (event : Controller.Message) : option Controller.effect :=
  if negb (String.eqb (Controller.Type_ event) Controller.ContainerEventType)
  then None
  else if String.eqb (Controller.Status event) "start"
       then Some (Controller.Containers_Add (Controller.ID event))
  else if String.eqb (Controller.Status event) "stop"
       then Some (Controller.Containers_Stop (Controller.ID event))
  else if String.eqb (Controller.Status event) "destroy"
       then Some (Controller.Containers_Remove (Controller.ID event))
  else None.

(** What a call does to the inventory. *)
Definition apply_call {Inventory : Type}
           (Add Stop Remove : string → Inventory → Inventory * option string)
           (inv : Inventory) (call : Controller.effect) : Inventory :=
  match call with
  | Controller.Containers_Add id => (Add id inv).1
  | Controller.Containers_Stop id => (Stop id inv).1
  | Controller.Containers_Remove id => (Remove id inv).1
  | _ => inv
  end.

(** The events of the container type. *)
Definition is_container_event (event : Controller.Message) : bool :=
  String.eqb (Controller.Type_ event) Controller.ContainerEventType.

(** The entries of a trace that are calls of [UpdateAbout]. *)
Definition is_UpdateAbout (e : Controller.effect) : bool :=
  match e with Controller.UpdateAbout => true | _ => false end.

(** The entries of a trace that belong to the refresh of [About] and
    [Volumes] at startup. *)
Definition is_refresh (e : Controller.effect) : bool :=
  match e with
  | Controller.UpdateAbout | Controller.UpdateVolumes
  | Controller.Log Controller.Warn _ _ => true
  | _ => false
  end.

(** * Properties *)

(** ** Writes through resource pointers *)

Section StoreFacts.

Implicit Types (h : Hub.t) (rp : ResPtr) (f : Ressource.t → Ressource.t).

Lemma update_lookup_eq h rp f :
  Hub.store (Hub.update rp f h) !! rp = f <$> Hub.store h !! rp.
Proof. simpl. rewrite list_lookup_alter. by rewrite decide_True. Qed.

Lemma update_lookup_ne h rp rp' f :
  rp ≠ rp' → Hub.store (Hub.update rp f h) !! rp' = Hub.store h !! rp'.
Proof. intros Hne. simpl. by rewrite list_lookup_alter_ne. Qed.

Lemma RemoveClient_idemp (c : ClientPtr) (r : Ressource.t) :
  Ressource.RemoveClient c (Ressource.RemoveClient c r)
  = Ressource.RemoveClient c r.
Proof.
  unfold Ressource.RemoveClient; simpl. f_equal.
  rewrite list_filter_filter. apply list_filter_iff. tauto.
Qed.

Lemma leave_slice_frame c ressources : ∀ h,
  Hub.Ressources (leave_slice c h ressources) = Hub.Ressources h
  ∧ Hub.frames (leave_slice c h ressources) = Hub.frames h
  ∧ Hub.inbox (leave_slice c h ressources) = Hub.inbox h
  ∧ Hub.spawned (leave_slice c h ressources) = Hub.spawned h
  ∧ length (Hub.store (leave_slice c h ressources)) = length (Hub.store h).
Proof.
  induction ressources as [|rp rest IH]; intros h; [done|].
  unfold leave_slice in *; simpl.
  destruct (IH (Hub.update rp (Ressource.RemoveClient c) h))
    as (-> & -> & -> & -> & ->).
  simpl. by rewrite length_alter.
Qed.

Lemma leave_slice_lookup_in c ressources : ∀ h rp,
  rp ∈ ressources →
  Hub.store (leave_slice c h ressources) !! rp
  = Ressource.RemoveClient c <$> Hub.store h !! rp.
Proof.
  induction ressources as [|p rest IH]; intros h rp Hin.
  { by apply elem_of_nil in Hin. }
  change (leave_slice c h (p :: rest))
    with (leave_slice c (Hub.update p (Ressource.RemoveClient c) h) rest).
  destruct (decide (rp ∈ rest)) as [Hrest|Hrest].
  - rewrite IH by done.
    destruct (decide (p = rp)) as [->|Hne].
    + rewrite update_lookup_eq.
      destruct (Hub.store h !! rp); simpl; [|done].
      by rewrite RemoveClient_idemp.
    + by rewrite update_lookup_ne.
  - apply elem_of_cons in Hin as [->|Hin]; [|done].
    clear IH. revert h. induction rest as [|q rest IH]; intros h.
    + apply update_lookup_eq.
    + apply not_elem_of_cons in Hrest as [Hne Hrest].
      change (leave_slice c (Hub.update p (Ressource.RemoveClient c) h)
                (q :: rest))
        with (leave_slice c
                (Hub.update q (Ressource.RemoveClient c)
                   (Hub.update p (Ressource.RemoveClient c) h)) rest).
      unfold Hub.update at 1 2; simpl.
      rewrite list_alter_alter_ne by done.
      specialize (IH Hrest (Hub.update q (Ressource.RemoveClient c) h)).
      rewrite <- (update_lookup_ne h q p (Ressource.RemoveClient c)) by done.
      exact IH.
Qed.

Lemma leave_slice_lookup_notin c ressources : ∀ h rp,
  rp ∉ ressources →
  Hub.store (leave_slice c h ressources) !! rp = Hub.store h !! rp.
Proof.
  induction ressources as [|p rest IH]; intros h rp Hin; [done|].
  apply not_elem_of_cons in Hin as [Hne Hin].
  change (leave_slice c h (p :: rest))
    with (leave_slice c (Hub.update p (Ressource.RemoveClient c) h) rest).
  rewrite IH by done. by rewrite update_lookup_ne.
Qed.

(** [ClientLeave] is [leave_slice] on the concatenation of the registry's
    slices. *)
Lemma ClientLeave_flat c h :
  Hub.ClientLeave c h
  = leave_slice c h (mjoin ((map_to_list (Hub.Ressources h)).*2)).
Proof.
  unfold Hub.ClientLeave.
  generalize (map_to_list (Hub.Ressources h)) as entries.
  intros entries. revert h.
  induction entries as [|e entries IH]; intros h0; [done|].
  simpl. rewrite IH. unfold leave_slice. by rewrite foldl_app.
Qed.

Lemma registered_flat h rp :
  rp ∈ mjoin ((map_to_list (Hub.Ressources h)).*2) ↔ registered h rp.
Proof.
  rewrite list_elem_of_join. split.
  - intros (l & Hrp & Hl). apply list_elem_of_fmap in Hl as ([k l'] & -> & Hl).
    apply elem_of_map_to_list in Hl. by exists k, l'.
  - intros (k & l & Hk & Hrp). exists l. split; [done|].
    apply list_elem_of_fmap. exists (k, l). split; [done|].
    by apply elem_of_map_to_list.
Qed.

End StoreFacts.

(** ** The registry invariant *)

Section Invariant.

Variable ContainerGet : string → option ContainerPtr.

Implicit Types (h : Hub.t) (rp : ResPtr) (c : ContainerPtr).

Lemma ids_kept_refl st : ids_kept st st.
Proof. intros rp r Hr. by exists r. Qed.

Lemma ids_kept_key st st' rp :
  ids_kept st st' → is_Some (st !! rp) → key_of st' rp = key_of st rp.
Proof.
  intros Hk [r Hr]. destruct (Hk rp r Hr) as (r' & Hr' & Hc & He).
  unfold key_of. rewrite Hr, Hr'. simpl. by rewrite Hc, He.
Qed.

Lemma ids_kept_alter st rp f :
  (∀ r, Ressource.ContainerID (f r) = Ressource.ContainerID r
        ∧ Ressource.Event (f r) = Ressource.Event r) →
  ids_kept st (alter f rp st).
Proof.
  intros Hf p r Hr. destruct (decide (rp = p)) as [->|Hne].
  - exists (f r). rewrite list_lookup_alter, decide_True by done.
    rewrite Hr. split; [done|]. apply Hf.
  - exists r. by rewrite list_lookup_alter_ne.
Qed.

Lemma ids_kept_app st ext : ids_kept st (st ++ ext).
Proof.
  intros p r Hr. exists r. split; [|done]. by apply lookup_app_l_Some.
Qed.

Lemma ids_kept_length st st' : ids_kept st st' → length st ≤ length st'.
Proof.
  intros Hk. destruct (decide (length st ≤ length st')) as [|Hgt]; [done|].
  destruct (lookup_lt_is_Some_2 st (length st')) as [r Hr]; [lia|].
  destruct (Hk _ _ Hr) as (r' & Hr' & _).
  apply lookup_lt_Some in Hr'. lia.
Qed.

(** A step that keeps the started goroutines and the identities in the
    store, and leaves in each slice of the registry only pointers that the
    slice held before, in their order, keeps the invariant. *)
Lemma wf_shrink h h' :
  wf ContainerGet h →
  (∀ c ressources', Hub.Ressources h' !! c = Some ressources' →
     ∃ ressources, Hub.Ressources h !! c = Some ressources
                   ∧ ressources' `sublist_of` ressources) →
  Hub.spawned h' = Hub.spawned h →
  ids_kept (Hub.store h) (Hub.store h') →
  wf ContainerGet h'.
Proof.
  intros [Hb Hk Hs Hsb Hsn] Hreg Hsp Hids.
  assert (Hru : ∀ c rp, registered_under h' c rp → registered_under h c rp).
  { intros c rp (rs' & Hrs' & Hin). destruct (Hreg _ _ Hrs') as (rs & Hrs & Hsub).
    exists rs. split; [done|].
    eapply elem_of_submseteq; [done|]. by apply sublist_submseteq. }
  split.
  - intros c rp Hrp. destruct (Hb c rp (Hru _ _ Hrp)) as (r & Hr & Hc).
    destruct (Hids rp r Hr) as (r' & Hr' & Hc' & _).
    exists r'. split; [done|]. by rewrite Hc'.
  - intros c rs' Hrs'. destruct (Hreg _ _ Hrs') as (rs & Hrs & Hsub).
    replace (key_of (Hub.store h') <$> rs')
      with (key_of (Hub.store h) <$> rs').
    { apply (sublist_NoDup _ (key_of (Hub.store h) <$> rs));
        [by eapply Hk|by apply fmap_sublist]. }
    apply list_fmap_ext. intros i rp Hi. symmetry.
    apply ids_kept_key; [done|].
    destruct (Hb c rp) as (r & Hr & _); [|by eexists].
    apply Hru. exists rs'. split; [done|]. by eapply list_elem_of_lookup_2.
  - intros c rp Hrp. rewrite Hsp. by apply Hs, Hru.
  - intros c rp Hin. rewrite Hsp in Hin. apply Hsb in Hin.
    pose proof (ids_kept_length _ _ Hids). lia.
  - by rewrite Hsp.
Qed.

Lemma wf_store_step h h' :
  wf ContainerGet h →
  Hub.Ressources h' = Hub.Ressources h →
  Hub.spawned h' = Hub.spawned h →
  ids_kept (Hub.store h) (Hub.store h') →
  wf ContainerGet h'.
Proof.
  intros Hwf Hreg Hsp Hids. apply (wf_shrink h); [done| |done..].
  intros c rs Hrs. exists rs. by rewrite <- Hreg.
Qed.

Lemma wf_update h rp f :
  (∀ r, Ressource.ContainerID (f r) = Ressource.ContainerID r
        ∧ Ressource.Event (f r) = Ressource.Event r) →
  wf ContainerGet h → wf ContainerGet (Hub.update rp f h).
Proof.
  intros Hf Hwf. apply (wf_store_step h); [done..|].
  by apply ids_kept_alter.
Qed.

Lemma wf_deliver h rp data : wf ContainerGet h → wf ContainerGet (Hub.deliver rp data h).
Proof.
  intros Hwf. unfold Hub.deliver. destruct (Hub.store h !! rp); [|done].
  apply (wf_store_step h); [done..|]. apply ids_kept_refl.
Qed.

Lemma leave_slice_ids_kept cl ressources : ∀ h,
  ids_kept (Hub.store h) (Hub.store (leave_slice cl h ressources)).
Proof.
  induction ressources as [|p rest IH]; intros h; [apply ids_kept_refl|].
  change (leave_slice cl h (p :: rest))
    with (leave_slice cl (Hub.update p (Ressource.RemoveClient cl) h) rest).
  intros rp r Hr.
  destruct (ids_kept_alter (Hub.store h) p (Ressource.RemoveClient cl)
              (λ _, conj eq_refl eq_refl) rp r Hr) as (r1 & Hr1 & Hc1 & He1).
  destruct (IH (Hub.update p (Ressource.RemoveClient cl) h) rp r1 Hr1)
    as (r2 & Hr2 & Hc2 & He2).
  exists r2. split; [done|]. split; congruence.
Qed.

Lemma wf_ClientLeave h cl : wf ContainerGet h → wf ContainerGet (Hub.ClientLeave cl h).
Proof.
  intros Hwf. rewrite ClientLeave_flat.
  destruct (leave_slice_frame cl (mjoin ((map_to_list (Hub.Ressources h)).*2)) h)
    as (Hreg & _ & _ & Hsp & _).
  apply (wf_store_step h); [done..|]. apply leave_slice_ids_kept.
Qed.

(** *** The lookup *)

Lemma matches_true cid event r :
  Ressource.matches cid event r = true
  ↔ Ressource.ContainerID r = cid ∧ Ressource.Event r = event.
Proof.
  unfold Ressource.matches.
  rewrite andb_true_iff, !bool_decide_eq_true. done.
Qed.

Lemma scan_Some st cid event ressources rp :
  Hub.scan st cid event ressources = Some rp →
  rp ∈ ressources ∧ key_of st rp = Some (cid, event).
Proof.
  induction ressources as [|p rest IH]; simpl; [done|]. intros Hscan.
  destruct (st !! p) as [r|] eqn:Hp.
  - destruct (Ressource.matches cid event r) eqn:Hm.
    + inversion Hscan; subst. split; [left|].
      apply matches_true in Hm as [<- <-]. unfold key_of. by rewrite Hp.
    + destruct (IH Hscan). split; [by right|done].
  - destruct (IH Hscan). split; [by right|done].
Qed.

Lemma scan_None st cid event ressources :
  Hub.scan st cid event ressources = None →
  Some (cid, event) ∉ key_of st <$> ressources.
Proof.
  induction ressources as [|p rest IH]; simpl; intros Hscan.
  { apply not_elem_of_nil. }
  apply not_elem_of_cons. unfold key_of at 1.
  destruct (st !! p) as [r|] eqn:Hp; simpl.
  - destruct (Ressource.matches cid event r) eqn:Hm; [done|].
    split; [|by apply IH]. intros Heq. inversion Heq as [[Hc He]].
    assert (Ressource.matches cid event r = true) by by apply matches_true.
    congruence.
  - split; [done|by apply IH].
Qed.

(** [Hub.Ressource] finds a resource exactly when a registered resource
    has the container id and the kind. *)
Lemma Ressource_Some h cid event rp :
  Hub.Ressource ContainerGet cid event h = Some rp →
  ∃ container, ContainerGet cid = Some container
               ∧ registered_under h container rp
               ∧ key_of (Hub.store h) rp = Some (cid, event).
Proof.
  unfold Hub.Ressource. destruct (ContainerGet cid) as [container|]; [|done].
  destruct (Hub.Ressources h !! container) as [rs|] eqn:Hrs; [|done].
  intros Hscan. apply scan_Some in Hscan as [Hin Hkey].
  exists container. split; [done|]. split; [by exists rs|done].
Qed.

Lemma Ressource_None h cid event :
  wf ContainerGet h →
  Hub.Ressource ContainerGet cid event h = None →
  ∀ rp, registered h rp → key_of (Hub.store h) rp ≠ Some (cid, event).
Proof.
  intros Hwf Hnone rp (c & rs & Hrs & Hin) Hkey.
  destruct (wf_bound _ _ Hwf c rp) as (r & Hr & Hget); [by exists rs|].
  unfold key_of in Hkey. rewrite Hr in Hkey. simpl in Hkey.
  inversion Hkey as [[Hc He]]. rewrite Hc in Hget.
  unfold Hub.Ressource in Hnone. rewrite Hget, Hrs in Hnone.
  apply scan_None in Hnone. apply Hnone.
  apply list_elem_of_fmap. exists rp. split; [|done].
  unfold key_of. rewrite Hr. simpl. by rewrite Hc, He.
Qed.

(** *** Subscribe *)

Lemma Subscribe_found h dem container res :
  ContainerGet (Demand.CID dem) = Some container →
  Hub.Ressource ContainerGet (Demand.CID dem) (Demand.Ressource dem) h = Some res →
  Hub.Subscribe ContainerGet dem h
  = Hub.update res (Ressource.AddReceiver (Demand.Client dem)) h.
Proof. intros Hget Hres. unfold Hub.Subscribe. by rewrite Hget, Hres. Qed.

Lemma Subscribe_created h dem container :
  ContainerGet (Demand.CID dem) = Some container →
  Hub.Ressource ContainerGet (Demand.CID dem) (Demand.Ressource dem) h = None →
  Hub.Subscribe ContainerGet dem h
  = Hub.mk (<[container := Hub.slice_of container h ++ [length (Hub.store h)]]>
              (Hub.Ressources h))
           (Hub.store h ++ [Ressource.NewRessource (Demand.CID dem)
                              (Demand.Ressource dem) (Demand.Client dem)])
           (Hub.frames h) (Hub.inbox h)
           (Hub.spawned h ++ [(container, length (Hub.store h))]).
Proof. intros Hget Hres. unfold Hub.Subscribe. by rewrite Hget, Hres. Qed.

Lemma slice_of_elem h c rp :
  rp ∈ Hub.slice_of c h ↔ registered_under h c rp.
Proof.
  unfold Hub.slice_of, registered_under.
  destruct (Hub.Ressources h !! c) as [rs|]; simpl.
  - split; [intros; by exists rs|]. by intros (rs' & [= <-] & Hin).
  - split; [by intros ?%elem_of_nil|]. by intros (rs' & [=] & _).
Qed.

Lemma wf_Subscribe h dem :
  wf ContainerGet h → wf ContainerGet (Hub.Subscribe ContainerGet dem h).
Proof.
  intros Hwf.
  destruct (ContainerGet (Demand.CID dem)) as [container|] eqn:Hget;
    [|unfold Hub.Subscribe; by rewrite Hget].
  destruct (Hub.Ressource ContainerGet (Demand.CID dem) (Demand.Ressource dem) h)
    as [res|] eqn:Hres.
  { rewrite (Subscribe_found _ _ _ _ Hget Hres). by apply wf_update. }
  rewrite (Subscribe_created _ _ _ Hget Hres).
  pose proof Hwf as [Hb Hk Hs Hsb Hsn].
  set (n := length (Hub.store h)).
  assert (Hold : ∀ rp, rp ∈ Hub.slice_of container h → rp < n).
  { intros rp Hin. apply slice_of_elem in Hin.
    destruct (Hb _ _ Hin) as (r & Hr & _). by apply lookup_lt_Some in Hr. }
  assert (Hreg : ∀ c rp,
    registered_under
      (Hub.mk (<[container := Hub.slice_of container h ++ [n]]> (Hub.Ressources h))
         (Hub.store h ++ [Ressource.NewRessource (Demand.CID dem)
                            (Demand.Ressource dem) (Demand.Client dem)])
         (Hub.frames h) (Hub.inbox h) (Hub.spawned h ++ [(container, n)])) c rp →
    registered_under h c rp ∨ (c = container ∧ rp = n)).
  { intros c rp (rs & Hrs & Hin). simpl in Hrs.
    destruct (decide (container = c)) as [->|Hne].
    - rewrite lookup_insert_eq in Hrs. inversion Hrs; subst.
      apply elem_of_app in Hin as [Hin|Hin].
      + left. by apply slice_of_elem.
      + right. by apply list_elem_of_singleton in Hin.
    - rewrite lookup_insert_ne in Hrs by done. left. by exists rs. }
  split; simpl.
  - intros c rp Hrp. destruct (Hreg _ _ Hrp) as [Hrp'|[-> ->]].
    + destruct (Hb _ _ Hrp') as (r & Hr & Hc). exists r.
      split; [by apply lookup_app_l_Some|done].
    + eexists. split; [apply list_lookup_middle; done|done].
  - intros c rs Hrs.
    destruct (decide (container = c)) as [->|Hne].
    + rewrite lookup_insert_eq in Hrs. inversion Hrs; subst. clear Hrs.
      rewrite fmap_app. apply NoDup_app.
      assert (Heq : key_of (Hub.store h ++ [Ressource.NewRessource (Demand.CID dem)
                               (Demand.Ressource dem) (Demand.Client dem)])
                    <$> Hub.slice_of c h
                    = key_of (Hub.store h) <$> Hub.slice_of c h).
      { apply list_fmap_ext. intros i rp Hi.
        apply ids_kept_key; [apply ids_kept_app|].
        apply lookup_lt_is_Some_2, Hold. by eapply list_elem_of_lookup_2. }
      rewrite Heq. split; [|split].
      * unfold Hub.slice_of. destruct (Hub.Ressources h !! c) as [rs|] eqn:Hrs;
          simpl; [by eapply Hk|constructor].
      * intros k Hk1 Hk2. simpl in Hk2. apply list_elem_of_singleton in Hk2.
        unfold key_of in Hk2. rewrite list_lookup_middle in Hk2 by done.
        simpl in Hk2. subst k.
        unfold Hub.Ressource in Hres. rewrite Hget in Hres.
        unfold Hub.slice_of in Hk1.
        destruct (Hub.Ressources h !! c) as [rs|] eqn:Hrs; simpl in Hk1.
        -- by apply scan_None in Hres.
        -- by apply elem_of_nil in Hk1.
      * apply NoDup_singleton.
    + rewrite lookup_insert_ne in Hrs by done.
      replace (key_of (Hub.store h ++ [Ressource.NewRessource (Demand.CID dem)
                         (Demand.Ressource dem) (Demand.Client dem)]) <$> rs)
        with (key_of (Hub.store h) <$> rs); [by eapply Hk|].
      apply list_fmap_ext. intros i rp Hi. symmetry.
      apply ids_kept_key; [apply ids_kept_app|].
      destruct (Hb c rp) as (r & Hr & _); [|by eexists].
      exists rs. split; [done|]. by eapply list_elem_of_lookup_2.
  - intros c rp Hrp. apply elem_of_app.
    destruct (Hreg _ _ Hrp) as [Hrp'|[-> ->]].
    + left. by apply Hs.
    + right. by apply list_elem_of_singleton.
  - intros c rp Hin. rewrite length_app. simpl.
    apply elem_of_app in Hin as [Hin|Hin].
    + apply Hsb in Hin. lia.
    + apply list_elem_of_singleton in Hin. inversion Hin. subst. unfold n. lia.
  - rewrite fmap_app. apply NoDup_app. split; [done|]. split; [|apply NoDup_singleton].
    intros rp Hin1 Hin2. simpl in Hin2. apply list_elem_of_singleton in Hin2. subst rp.
    apply list_elem_of_fmap in Hin1 as ([c rp] & Heq & Hin1). simpl in Heq. subst rp.
    apply Hsb in Hin1. unfold n in Hin1. lia.
Qed.

Lemma wf_Unsubscribe h dem :
  wf ContainerGet h → wf ContainerGet (Hub.Unsubscribe ContainerGet dem h).
Proof.
  intros Hwf. unfold Hub.Unsubscribe.
  destruct (ContainerGet (Demand.CID dem)); [|done].
  destruct (Hub.Ressource _ _ _ h) as [res|]; [|done].
  destruct (Hub.store h !! res); [|done].
  case_bool_decide; [|done]. by apply wf_update.
Qed.

(** *** RemoveRessource *)

Lemma slices_Index_Some s v i :
  Hub.slices_Index s v = Some i →
  s !! i = Some v ∧ ∀ j, j < i → s !! j ≠ Some v.
Proof.
  revert i. induction s as [|x s IH]; intros i; simpl; [done|].
  destruct (decide (x = v)) as [->|Hne].
  - intros [= <-]. split; [done|]. intros j Hj. lia.
  - destruct (Hub.slices_Index s v) as [i'|]; simpl; [|done].
    intros [= <-]. destruct (IH i' eq_refl) as [Hi Hmin].
    split; [done|]. intros [|j] Hj; simpl; [congruence|].
    apply Hmin. lia.
Qed.

Lemma slices_Index_None s v : Hub.slices_Index s v = None → v ∉ s.
Proof.
  induction s as [|x s IH]; simpl; intros Hidx.
  { apply not_elem_of_nil. }
  destruct (decide (x = v)); [done|].
  destruct (Hub.slices_Index s v); [done|].
  apply not_elem_of_cons. split; [done|by apply IH].
Qed.

(** With nothing in between its two parts, [RemoveRessource] takes the
    first occurrence of the pointer out of the container's slice when the
    receiver list is empty and the slice holds the pointer ... *)
Lemma RemoveRessource_removed h c rp i :
  Hub.no_receivers rp h = true →
  Hub.slices_Index (Hub.slice_of c h) rp = Some i →
  Hub.RemoveRessource c rp h
  = Hub.mk (<[c := delete i (Hub.slice_of c h)]> (Hub.Ressources h))
           (Hub.store h ++ [Ressource.zero])
           (Hub.frames h) (Hub.inbox h) (Hub.spawned h).
Proof.
  intros Hno Hidx. unfold Hub.RemoveRessource, Hub.RemoveRessource_check.
  rewrite Hno, Hidx. unfold Hub.RemoveRessource_locked.
  apply slices_Index_Some in Hidx as [Hi _]. apply lookup_lt_Some in Hi.
  rewrite decide_True by done. simpl. unfold Hub.set_Ressources. simpl.
  by rewrite insert_insert_eq, delete_take_drop.
Qed.

(** ... and does nothing otherwise. *)
Lemma RemoveRessource_kept h c rp :
  Hub.no_receivers rp h = false ∨ rp ∉ Hub.slice_of c h →
  Hub.RemoveRessource c rp h = h.
Proof.
  intros Hcase. unfold Hub.RemoveRessource, Hub.RemoveRessource_check.
  destruct (Hub.no_receivers rp h); [|done].
  destruct (Hub.slices_Index (Hub.slice_of c h) rp) as [i|] eqn:Hidx; [|done].
  destruct Hcase as [|Hnotin]; [done|]. exfalso. apply Hnotin.
  apply slices_Index_Some in Hidx as [Hi _]. by eapply list_elem_of_lookup_2.
Qed.

Lemma wf_RemoveRessource h c rp :
  wf ContainerGet h → wf ContainerGet (Hub.RemoveRessource c rp h).
Proof.
  intros Hwf.
  destruct (Hub.no_receivers rp h) eqn:Hno;
    [|rewrite RemoveRessource_kept; [done|by left]].
  destruct (Hub.slices_Index (Hub.slice_of c h) rp) as [i|] eqn:Hidx;
    [|rewrite RemoveRessource_kept; [done|right; by apply slices_Index_None]].
  rewrite (RemoveRessource_removed _ _ _ _ Hno Hidx).
  apply (wf_shrink h); simpl; [done| |done|apply ids_kept_app].
  intros c' rs' Hrs'. destruct (decide (c = c')) as [->|Hne].
  - rewrite lookup_insert_eq in Hrs'. inversion Hrs'; subst.
    apply slices_Index_Some in Hidx as [Hi _].
    unfold Hub.slice_of in *.
    destruct (Hub.Ressources h !! c') as [rs|]; simpl in *; [|done].
    exists rs. split; [done|]. apply sublist_delete.
  - rewrite lookup_insert_ne in Hrs' by done. by exists rs'.
Qed.

(** *** Every interleaving keeps the invariant *)

Lemma wf_NewHub : wf ContainerGet Hub.NewHub.
Proof.
  split; simpl.
  - by intros c rp (rs & Hrs & _).
  - intros c rs Hrs. by rewrite lookup_empty in Hrs.
  - by intros c rp (rs & Hrs & _).
  - by intros c rp Hin%elem_of_nil.
  - constructor.
Qed.

Lemma wf_exec h o : wf ContainerGet h → wf ContainerGet (Hub.exec ContainerGet h o).
Proof.
  intros Hwf. destruct o; simpl.
  - by apply wf_Subscribe.
  - by apply wf_Unsubscribe.
  - by apply wf_ClientLeave.
  - by apply wf_update.
  - by apply wf_deliver.
  - by apply wf_update.
  - by apply wf_RemoveRessource.
Qed.

Lemma wf_run ops : ∀ h,
  wf ContainerGet h → wf ContainerGet (Hub.run ContainerGet ops h).
Proof.
  induction ops as [|o ops IH]; intros h Hwf; [done|].
  apply IH. by apply wf_exec.
Qed.

(** At most one registered resource has a given container id and kind. *)
Lemma wf_unique h rp1 rp2 key :
  wf ContainerGet h →
  registered h rp1 → registered h rp2 →
  key_of (Hub.store h) rp1 = Some key →
  key_of (Hub.store h) rp2 = Some key →
  rp1 = rp2.
Proof.
  intros Hwf (c1 & rs1 & Hrs1 & Hin1) (c2 & rs2 & Hrs2 & Hin2) Hk1 Hk2.
  destruct (wf_bound _ _ Hwf c1 rp1) as (r1 & Hr1 & Hc1); [by exists rs1|].
  destruct (wf_bound _ _ Hwf c2 rp2) as (r2 & Hr2 & Hc2); [by exists rs2|].
  unfold key_of in Hk1, Hk2. rewrite Hr1 in Hk1. rewrite Hr2 in Hk2.
  simpl in Hk1, Hk2. destruct key as [cid event].
  inversion Hk1 as [[Hid1 He1]]. inversion Hk2 as [[Hid2 He2]].
  rewrite Hid1 in Hc1. rewrite Hid2 in Hc2.
  assert (c1 = c2) as -> by congruence.
  assert (rs1 = rs2) as -> by congruence.
  pose proof (wf_keys _ _ Hwf c2 rs2 Hrs2) as Hnd.
  apply list_elem_of_lookup_1 in Hin1 as [i Hi].
  apply list_elem_of_lookup_1 in Hin2 as [j Hj].
  assert (i = j) as ->; [|congruence].
  eapply (NoDup_lookup _ i j (Some (cid, event))); [done|..];
    rewrite list_lookup_fmap; [rewrite Hi|rewrite Hj]; simpl;
    unfold key_of; [rewrite Hr1|rewrite Hr2]; simpl; congruence.
Qed.

End Invariant.

(** ** Fan-out *)

Section Fanout.

Implicit Types (h : Hub.t) (rp : ResPtr) (c : ClientPtr).

(** How often a client is entered in a receiver list. *)
Lemma send_all_received (frame : FramePtr) (receivers : list ClientPtr) :
  ∀ (ib : gmap nat (list nat)) c,
    default [] (foldl (Hub.send frame) ib receivers !! c)
    = default [] (ib !! c)
      ++ replicate (length (filter (λ x, x = c) receivers)) frame.
Proof.
  induction receivers as [|x rest IH]; intros ib c; simpl.
  { by rewrite app_nil_r. }
  rewrite IH. unfold Hub.send.
  destruct (decide (x = c)) as [->|Hne].
  - rewrite lookup_insert_eq. simpl.
    rewrite filter_cons_True by done. simpl. by rewrite <- app_assoc.
  - rewrite lookup_insert_ne by done. by rewrite filter_cons_False.
Qed.

Lemma entries_not_elem_of c (l : list nat) :
  c ∉ l → length (filter (λ x, x = c) l) = 0.
Proof.
  induction l as [|x l IH]; [done|]. intros [Hne Hin]%not_elem_of_cons.
  rewrite filter_cons_False by done. by apply IH.
Qed.

Lemma entries_NoDup c (l : list nat) :
  NoDup l → c ∈ l → length (filter (λ x, x = c) l) = 1.
Proof.
  induction 1 as [|x l Hx Hnd IH]; intros Hin.
  { by apply elem_of_nil in Hin. }
  destruct (decide (x = c)) as [->|Hne].
  - rewrite filter_cons_True by done. simpl.
    by rewrite entries_not_elem_of.
  - rewrite filter_cons_False by done. apply IH.
    by apply elem_of_cons in Hin as [->|Hin].
Qed.

Lemma bind_replicate_1 (l : list nat) : l ≫= replicate 1 = l.
Proof. induction l as [|x l IH]; [done|]. rewrite bind_cons, IH. done. Qed.

Lemma bind_replicate_0 (l : list nat) : l ≫= replicate 0 = @nil nat.
Proof. induction l as [|x l IH]; [done|]. by rewrite bind_cons, IH. Qed.

Lemma deliver_spec h rp r data :
  Hub.store h !! rp = Some r →
  Hub.deliver rp data h
  = Hub.mk (Hub.Ressources h) (Hub.store h)
      (Hub.frames h ++ [ResponseFrame.mk (Ressource.ContainerID r)
                          (Ressource.Event r) data])
      (foldl (Hub.send (length (Hub.frames h))) (Hub.inbox h)
         (Ressource.Receivers r))
      (Hub.spawned h).
Proof. intros Hr. unfold Hub.deliver. by rewrite Hr. Qed.

Lemma deliver_store h rp data : Hub.store (Hub.deliver rp data h) = Hub.store h.
Proof. unfold Hub.deliver. by destruct (Hub.store h !! rp). Qed.

Lemma deliver_no_receivers h rp data :
  Hub.no_receivers rp (Hub.deliver rp data h) = Hub.no_receivers rp h.
Proof. unfold Hub.no_receivers. by rewrite deliver_store. Qed.

(** With a receiver, the loop takes every set. *)
Lemma fanout_all rp r sets : ∀ h,
  Hub.store h !! rp = Some r → Ressource.Receivers r ≠ [] →
  Hub.Ressources (Hub.fanout rp sets h) = Hub.Ressources h
  ∧ Hub.store (Hub.fanout rp sets h) = Hub.store h
  ∧ Hub.spawned (Hub.fanout rp sets h) = Hub.spawned h
  ∧ Hub.frames (Hub.fanout rp sets h)
    = Hub.frames h ++ (ResponseFrame.mk (Ressource.ContainerID r)
                         (Ressource.Event r) <$> sets)
  ∧ ∀ c, Hub.received c (Hub.fanout rp sets h)
         = Hub.received c h
           ++ (seq (length (Hub.frames h)) (length sets)
                 ≫= replicate (length (filter (λ x, x = c)
                                          (Ressource.Receivers r)))).
Proof.
  induction sets as [|set rest IH]; intros h Hr Hne; simpl.
  { rewrite !app_nil_r. repeat split; try done. intros c. by rewrite app_nil_r. }
  rewrite deliver_no_receivers. unfold Hub.no_receivers at 1 2 3 4 5.
  rewrite Hr, bool_decide_eq_false_2 by done.
  destruct (IH (Hub.deliver rp set h)) as (H1 & H2 & H3 & H4 & Hrec);
    [by rewrite deliver_store|done|].
  rewrite H1, H2, H3, H4. clear H1 H2 H3 H4.
  split; [by rewrite (deliver_spec _ _ _ _ Hr)|].
  split; [by rewrite (deliver_spec _ _ _ _ Hr)|].
  split; [by rewrite (deliver_spec _ _ _ _ Hr)|].
  split; [rewrite (deliver_spec _ _ _ _ Hr); simpl; by rewrite <- app_assoc|].
  intros c. rewrite Hrec. rewrite (deliver_spec _ _ _ _ Hr). simpl.
  unfold Hub.received at 1. simpl. rewrite send_all_received.
  rewrite length_app. simpl. rewrite Nat.add_1_r.
  unfold Hub.received. by rewrite <- app_assoc.
Qed.

End Fanout.

(** ** The invariant of the schedules *)

Section Schedules.

Variable ContainerGet : string → option ContainerPtr.

Implicit Types (h : Hub.t) (rp : ResPtr) (c : ContainerPtr)
         (pcs : gmap nat Hub.pc).


Lemma pc_of_insert_eq pcs rp p : Hub.pc_of (<[rp := p]> pcs) rp = p.
Proof. unfold Hub.pc_of. by rewrite lookup_insert_eq. Qed.









Lemma elem_of_delete_ne (l : list nat) i x y :
  l !! i = Some y → x ≠ y → x ∈ l → x ∈ delete i l.
Proof.
  intros Hi Hne Hin. apply list_elem_of_lookup_1 in Hin as [j Hj].
  destruct (decide (j < i)) as [Hlt|Hge].
  - apply (list_elem_of_lookup_2 _ j). by rewrite list_lookup_delete_lt.
  - assert (j ≠ i) by (intros ->; congruence).
    apply (list_elem_of_lookup_2 _ (j - 1)).
    rewrite list_lookup_delete_ge by lia.
    by replace (S (j - 1)) with j by lia.
Qed.

Lemma RemoveRessource_cases h c rp :
  Hub.RemoveRessource c rp h = h
  ∨ ∃ i, Hub.slice_of c h !! i = Some rp
         ∧ Hub.RemoveRessource c rp h
           = Hub.mk (<[c := delete i (Hub.slice_of c h)]> (Hub.Ressources h))
                    (Hub.store h ++ [Ressource.zero])
                    (Hub.frames h) (Hub.inbox h) (Hub.spawned h).
Proof.
  destruct (Hub.no_receivers rp h) eqn:Hno;
    [|left; apply RemoveRessource_kept; by left].
  destruct (Hub.slices_Index (Hub.slice_of c h) rp) as [i|] eqn:Hidx;
    [|left; apply RemoveRessource_kept; right; by apply slices_Index_None].
  right. exists i. split; [by apply slices_Index_Some in Hidx as [? _]|].
  by apply RemoveRessource_removed.
Qed.






(** The statements of one goroutine, run with nothing in between, are
    [HandleRessource] on the sets its stream yields. *)
Lemma goroutine_loop_fanout rp container sets : ∀ h pcs,
  Hub.started_with rp (Hub.spawned h) = Some container →
  Hub.pc_of pcs rp = Hub.AtRange →
  ∃ nexts pcs',
    foldl (λ s next, Hub.goroutine_step rp next s) (h, pcs) nexts
    = (Hub.fanout rp sets h, pcs')
    ∧ Hub.pc_of pcs' rp = Hub.AtQuit.
Proof.
  induction sets as [|set rest IH]; intros h pcs Hstart Hpc.
  - exists [None], (<[rp := Hub.AtQuit]> pcs). simpl.
    rewrite Hstart, Hpc. split; [done|apply pc_of_insert_eq].
  - assert (Hsp : Hub.spawned (Hub.deliver rp set h) = Hub.spawned h).
    { unfold Hub.deliver. by destruct (Hub.store h !! rp). }
    simpl. destruct (Hub.no_receivers rp (Hub.deliver rp set h)) eqn:Hno.
    + exists [Some set; None],
        (<[rp := Hub.AtQuit]> (<[rp := Hub.AtTest]> pcs)). simpl.
      rewrite Hstart, Hpc. simpl. rewrite Hsp, Hstart, pc_of_insert_eq, Hno.
      split; [done|apply pc_of_insert_eq].
    + destruct (IH (Hub.deliver rp set h)
                  (<[rp := Hub.AtRange]> (<[rp := Hub.AtTest]> pcs)))
        as (nexts & pcs' & Hrun & Hpc').
      { by rewrite Hsp. }
      { apply pc_of_insert_eq. }
      exists (Some set :: None :: nexts), pcs'. simpl.
      rewrite Hstart, Hpc. simpl. rewrite Hsp, Hstart, pc_of_insert_eq, Hno.
      done.
Qed.

Lemma goroutine_alone_HandleRessource rp container sets h pcs :
  Hub.started_with rp (Hub.spawned h) = Some container →
  Hub.pc_of pcs rp = Hub.AtSetStreamer →
  ∃ nexts pcs',
    foldl (λ s next, Hub.goroutine_step rp next s) (h, pcs) nexts
    = (Hub.HandleRessource container rp sets h, pcs')
    ∧ Hub.pc_of pcs' rp = Hub.Returned.
Proof.
  intros Hstart Hpc.
  destruct (goroutine_loop_fanout rp container sets
              (Hub.update rp Ressource.SetStreamer h) (<[rp := Hub.AtRange]> pcs))
    as (nexts & pcs1 & Hrun & Hpc1); [done|apply pc_of_insert_eq|].
  exists (None :: nexts ++ [None; None]), (<[rp := Hub.Returned]>
                                            (<[rp := Hub.AtRemoveRessource]> pcs1)).
  split; [|apply pc_of_insert_eq].
  simpl. rewrite Hstart, Hpc. rewrite foldl_app, Hrun. simpl.
  assert (Hsp : Hub.spawned (Hub.fanout rp sets (Hub.update rp Ressource.SetStreamer h))
                = Hub.spawned h).
  { assert (Hgen : ∀ h1, Hub.spawned (Hub.fanout rp sets h1) = Hub.spawned h1);
      [|by rewrite Hgen].
    clear. induction sets as [|set rest IH]; intros h1; simpl; [done|].
    assert (Hd : Hub.spawned (Hub.deliver rp set h1) = Hub.spawned h1).
    { unfold Hub.deliver. by destruct (Hub.store h1 !! rp). }
    destruct (Hub.no_receivers rp (Hub.deliver rp set h1)); [done|].
    by rewrite IH. }
  rewrite Hsp, Hstart, Hpc1. simpl. rewrite Hsp, Hstart, pc_of_insert_eq. done.
Qed.

(** The hub of a schedule is the hub of a run of statements. *)
Lemma step_run s e : ∃ ops, (Hub.step ContainerGet s e).1 = Hub.run ContainerGet ops s.1.
Proof.
  destruct s as [h pcs], e as [dem|dem|cl|rp next]; simpl.
  - by exists [Hub.OpSubscribe dem].
  - by exists [Hub.OpUnsubscribe dem].
  - by exists [Hub.OpClientLeave cl].
  - destruct (Hub.started_with rp (Hub.spawned h)) as [container|];
      [|by exists []].
    destruct (Hub.pc_of pcs rp).
    + by exists [Hub.OpSetStreamer rp].
    + destruct next as [set|]; [by exists [Hub.OpDeliver rp set]|by exists []].
    + by exists [].
    + by exists [Hub.OpQuit rp].
    + by exists [Hub.OpRemoveRessource container rp].
    + by exists [].
Qed.

Lemma schedule_run evs :
  ∃ ops, (Hub.schedule ContainerGet evs).1 = Hub.run ContainerGet ops Hub.NewHub.
Proof.
  unfold Hub.schedule.
  assert (Hgen : ∀ s, ∃ ops, (foldl (Hub.step ContainerGet) s evs).1
                             = Hub.run ContainerGet ops s.1);
    [|apply (Hgen (Hub.NewHub, ∅))].
  induction evs as [|e evs IH]; intros s; simpl; [by exists []|].
  destruct (IH (Hub.step ContainerGet s e)) as [ops2 Hops2].
  destruct (step_run s e) as [ops1 Hops1].
  exists (ops1 ++ ops2). rewrite Hops2, Hops1.
  unfold Hub.run. by rewrite foldl_app.
Qed.


End Schedules.

(** ** One resource per container id and kind *)



(** ** Fan-out to the receivers *)

(** C3. One round of the loop of a resource turns the set it has received
    into one frame, carrying the container id and the kind of the resource
    and the data of the set, and sends the address of that frame to a client
    once per entry the client has in the receiver list.  While the resource
    has receivers and nothing else runs, the loop does so for every set of
    the stream, in order: the clients of a receiver list without duplicates
    are all sent the same addresses in the same order, one per set, and a
    client that is not in the list is sent nothing. *)
Theorem fanout_same_frames_to_every_receiver
  (h : Hub.t) (rp : ResPtr) (r : Ressource.t) (sets : list string) :
  Hub.store h !! rp = Some r →
  (∀ set,
     Hub.frames (Hub.deliver rp set h)
     = Hub.frames h ++ [ResponseFrame.mk (Ressource.ContainerID r)
                          (Ressource.Event r) set]
     ∧ ∀ c, Hub.received c (Hub.deliver rp set h)
            = Hub.received c h
              ++ replicate (length (filter (λ x, x = c) (Ressource.Receivers r)))
                   (length (Hub.frames h)))
  ∧ (Ressource.Receivers r ≠ [] →
     let h' := Hub.fanout rp sets h in
     let sent := seq (length (Hub.frames h)) (length sets) in
     Hub.frames h'
     = Hub.frames h ++ (ResponseFrame.mk (Ressource.ContainerID r)
                          (Ressource.Event r) <$> sets)
     ∧ (∀ c, Hub.received c h'
             = Hub.received c h
               ++ (sent ≫= replicate (length (filter (λ x, x = c)
                                                (Ressource.Receivers r)))))
     ∧ (NoDup (Ressource.Receivers r) →
        ∀ c, c ∈ Ressource.Receivers r →
             Hub.received c h' = Hub.received c h ++ sent)
     ∧ (∀ c, c ∉ Ressource.Receivers r → Hub.received c h' = Hub.received c h)
     ∧ Hub.store h' = Hub.store h
     ∧ Hub.Ressources h' = Hub.Ressources h).
Proof.
  intros Hr. split.
  { intros set. rewrite (deliver_spec _ _ _ _ Hr). simpl. split; [done|].
    intros c. unfold Hub.received. simpl. apply send_all_received. }
  intros Hne h' sent.
  destruct (fanout_all rp r sets h Hr Hne) as (Hreg & Hst & _ & Hfr & Hrec).
  split; [done|]. split; [done|]. split; [|split; [|done]].
  - intros Hnd c Hin. rewrite Hrec, entries_NoDup by done.
    f_equal. apply bind_replicate_1.
  - intros c Hin. rewrite Hrec, entries_not_elem_of by done.
    rewrite bind_replicate_0. apply app_nil_r.
Qed.

(** The two clients of the metrics of ["c1"] are sent the same two frames. *)
Lemma fanout_same_frames_to_every_receiver_witness :
  let h := Hub.run inventory1 [Hub.OpSubscribe demand_A; Hub.OpSubscribe demand_B]
             Hub.NewHub in
  let r := Ressource.mk "c1" "metrics" [10; 11] Ressource.NoStream in
  Hub.store h !! 0 = Some r
  ∧ Hub.received 10 (Hub.fanout 0 ["cpu 1"; "cpu 2"] h) = [0; 1]
  ∧ Hub.received 11 (Hub.fanout 0 ["cpu 1"; "cpu 2"] h) = [0; 1].
Proof.
  intros h r.
  assert (Hr : Hub.store h !! 0 = Some r) by reflexivity.
  assert (Hne : Ressource.Receivers r ≠ []) by discriminate.
  split; [exact Hr|].
  destruct (fanout_same_frames_to_every_receiver h 0 r ["cpu 1"; "cpu 2"] Hr)
    as (_ & Hrun).
  destruct (Hrun Hne) as (_ & Hall & _).
  split; [exact (Hall 10)|exact (Hall 11)].
Defined.

(** ** Teardown *)

Section Teardown.

Variable ContainerGet : string → option ContainerPtr.

Implicit Types (h : Hub.t) (rp : ResPtr) (c : ContainerPtr).

(** An iteration that ends with no receiver is the last one. *)
Lemma fanout_break h rp set rest :
  Hub.no_receivers rp h = true →
  Hub.fanout rp (set :: rest) h = Hub.deliver rp set h.
Proof. intros Hno. simpl. by rewrite deliver_no_receivers, Hno. Qed.

Lemma slices_Index_elem s v : v ∈ s → is_Some (Hub.slices_Index s v).
Proof.
  induction s as [|x s IH]; simpl; [by intros ?%elem_of_nil|].
  intros Hin. destruct (decide (x = v)); [by eexists|].
  apply elem_of_cons in Hin as [->|Hin]; [done|].
  destruct (IH Hin) as [i ->]. by eexists.
Qed.

Lemma NoDup_delete_not_elem_of (l : list nat) i x :
  NoDup l → l !! i = Some x → x ∉ delete i l.
Proof.
  intros Hnd Hi Hin. apply list_elem_of_lookup_1 in Hin as [j Hj].
  destruct (decide (j < i)) as [Hlt|Hge].
  - rewrite list_lookup_delete_lt in Hj by done.
    pose proof (NoDup_lookup _ _ _ _ Hnd Hi Hj). lia.
  - rewrite list_lookup_delete_ge in Hj by lia.
    pose proof (NoDup_lookup _ _ _ _ Hnd Hi Hj). lia.
Qed.


(** [Quit] and [RemoveRessource] on a registered resource without
    receivers. *)
Lemma teardown_spec h container rp r :
  registered_under h container rp →
  Hub.store h !! rp = Some r → Ressource.Receivers r = [] →
  ∃ i, Hub.slice_of container h !! i = Some rp
       ∧ teardown container rp h
         = Hub.mk (<[container := delete i (Hub.slice_of container h)]>
                     (Hub.Ressources h))
                  (alter Ressource.Quit rp (Hub.store h) ++ [Ressource.zero])
                  (Hub.frames h) (Hub.inbox h) (Hub.spawned h).
Proof.
  intros Hreg Hr Hrec. apply slice_of_elem in Hreg.
  destruct (slices_Index_elem _ _ Hreg) as [i Hidx].
  exists i. split; [by apply slices_Index_Some in Hidx as [? _]|].
  unfold teardown. erewrite RemoveRessource_removed; [done| |exact Hidx].
  unfold Hub.no_receivers. rewrite update_lookup_eq, Hr. simpl.
  by apply bool_decide_eq_true.
Qed.

End Teardown.

(** [HandleRessource] is [SetStreamer], the loop, and the teardown. *)
Lemma HandleRessource_unfold container rp sets h :
  Hub.HandleRessource container rp sets h
  = teardown container rp
      (Hub.fanout rp sets (Hub.update rp Ressource.SetStreamer h)).
Proof. reflexivity. Qed.

(** [HandleRessource] alone, from the round of a resource without
    receivers: the round is the last one and the rest of the stream is not
    read; [Quit] and [RemoveRessource] follow, and the next [Subscribe] for
    the container id and the kind allocates a new resource. *)
Lemma HandleRessource_alone_then_new_Ressource
  (ContainerGet : string → option ContainerPtr) (ops : list Hub.op)
  (container : ContainerPtr) (rp : ResPtr) (r : Ressource.t)
  (set : string) (rest : list string) (dem : Demand.t) :
  let h := Hub.run ContainerGet ops Hub.NewHub in
  registered_under h container rp →
  Hub.store h !! rp = Some r →
  Ressource.Receivers r = [] →
  Demand.CID dem = Ressource.ContainerID r →
  Demand.Ressource dem = Ressource.Event r →
  let h1 := Hub.fanout rp (set :: rest) h in
  let h2 := teardown container rp h1 in
  let h3 := Hub.Subscribe ContainerGet dem h2 in
  let rp' := length (Hub.store h2) in
  h1 = Hub.deliver rp set h
  ∧ Hub.inbox h2 = Hub.inbox h
  ∧ Ressource.Stream <$> Hub.store h2 !! rp = Some Ressource.Cancelled
  ∧ ¬ registered h2 rp
  ∧ Hub.Ressource ContainerGet (Demand.CID dem) (Demand.Ressource dem) h2 = None
  ∧ rp' ≠ rp
  ∧ Hub.store h3 !! rp'
    = Some (Ressource.NewRessource (Demand.CID dem) (Demand.Ressource dem)
              (Demand.Client dem))
  ∧ registered_under h3 container rp'
  ∧ Hub.spawned h3 = Hub.spawned h2 ++ [(container, rp')].
Proof.
  intros h Hreg Hr Hrec Hcid Hkind h1 h2 h3 rp'.
  assert (Hwf : wf ContainerGet h) by apply wf_run, wf_NewHub.
  assert (Hno : Hub.no_receivers rp h = true).
  { unfold Hub.no_receivers. rewrite Hr. by apply bool_decide_eq_true. }
  assert (Hh1 : h1 = Hub.deliver rp set h) by by apply fanout_break.
  assert (Hh1' : h1 = Hub.mk (Hub.Ressources h) (Hub.store h)
                        (Hub.frames h ++ [ResponseFrame.mk (Ressource.ContainerID r)
                                            (Ressource.Event r) set])
                        (Hub.inbox h) (Hub.spawned h)).
  { rewrite Hh1, (deliver_spec _ _ _ _ Hr), Hrec. done. }
  destruct (wf_bound _ _ Hwf container rp Hreg) as (r0 & Hr0 & Hget).
  assert (r0 = r) as -> by congruence.
  assert (Hlt : rp < length (Hub.store h)) by by eapply lookup_lt_Some.
  destruct Hreg as (rs & Hrs & Hin).
  destruct (teardown_spec h1 container rp r) as (i & Hi & Hh2).
  { exists rs. by rewrite Hh1'. }
  { by rewrite Hh1'. }
  { done. }
  fold h2 in Hh2. rewrite Hh1' in Hh2, Hi.
  unfold Hub.slice_of in Hh2, Hi. simpl in Hh2, Hi. rewrite Hrs in Hh2, Hi.
  simpl in Hh2, Hi.
  assert (Hnd : NoDup rs).
  { eapply NoDup_fmap_1. by eapply (wf_keys _ _ Hwf). }
  assert (Hsub : ∀ c x, registered_under h2 c x →
                        registered_under h c x ∧ x ≠ rp).
  { intros c x (rs' & Hrs' & Hx). rewrite Hh2 in Hrs'. simpl in Hrs'.
    destruct (decide (container = c)) as [->|Hne].
    - rewrite lookup_insert_eq in Hrs'. inversion Hrs'; subst rs'.
      split.
      + exists rs. split; [done|].
        eapply elem_of_submseteq; [done|]. apply sublist_submseteq, sublist_delete.
      + intros ->. by eapply NoDup_delete_not_elem_of.
    - rewrite lookup_insert_ne in Hrs' by done.
      split; [by exists rs'|]. intros ->.
      destruct (wf_bound _ _ Hwf c rp) as (r1 & Hr1 & Hget1); [by exists rs'|].
      congruence. }
  assert (Hst2 : ∀ x, x < length (Hub.store h) →
                      key_of (Hub.store h2) x = key_of (Hub.store h) x).
  { intros x Hx. rewrite Hh2. simpl. apply ids_kept_key.
    - intros y ry Hy.
      destruct (ids_kept_alter (Hub.store h) rp Ressource.Quit
                  (λ _, conj eq_refl eq_refl) y ry Hy) as (ry' & Hy' & ?).
      exists ry'. split; [by apply lookup_app_l_Some|done].
    - by apply lookup_lt_is_Some_2. }
  assert (Hnone : Hub.Ressource ContainerGet (Demand.CID dem)
                    (Demand.Ressource dem) h2 = None).
  { destruct (Hub.Ressource ContainerGet (Demand.CID dem) (Demand.Ressource dem) h2)
      as [x|] eqn:Hx; [|done]. exfalso.
    destruct (Ressource_Some _ _ _ _ _ Hx) as (c & _ & Hregx & Hkey).
    destruct (Hsub _ _ Hregx) as [Hregx' Hne]. apply Hne.
    destruct (wf_bound _ _ Hwf c x Hregx') as (rx & Hrx & _).
    rewrite Hst2 in Hkey by by eapply lookup_lt_Some.
    eapply (wf_unique ContainerGet h); [done|by exists c| |exact Hkey|].
    - exists container, rs. done.
    - unfold key_of. rewrite Hr. simpl. by rewrite Hcid, Hkind. }
  rewrite <- Hcid in Hget.
  assert (Hh3 : h3 = _) by exact (Subscribe_created _ _ _ _ Hget Hnone).
  split; [done|]. split; [by rewrite Hh2|]. split.
  { rewrite Hh2. simpl. rewrite lookup_app_l by by rewrite length_alter.
    rewrite list_lookup_alter, decide_True by done. by rewrite Hr. }
  split. { intros (c & rs' & Hrs' & Hx). destruct (Hsub c rp) as [_ Hne]; [by exists rs'|done]. }
  split; [done|]. split.
  { unfold rp'. rewrite Hh2. simpl. rewrite length_app, length_alter. simpl. lia. }
  rewrite Hh3. simpl. split; [by apply list_lookup_middle|]. split; [|done].
  eexists. split; [apply lookup_insert_eq|].
  apply elem_of_app. right. by apply list_elem_of_singleton.
Qed.

(** ** Reclaim in a schedule *)

Section Reclaim.

Variable ContainerGet : string → option ContainerPtr.

Implicit Types (h : Hub.t) (rp : ResPtr) (pcs : gmap nat Hub.pc).










End Reclaim.




(** ** ClientLeave *)

(** C7. [ClientLeave(c)] leaves the registry as it is and rewrites exactly
    the registered resources: each of them loses every entry equal to [c]
    from its receiver list and keeps all its other entries, in order; a
    resource that is not registered is not touched. *)
Theorem ClientLeave_removes_client (c : ClientPtr) (h : Hub.t) :
  let h' := Hub.ClientLeave c h in
  Hub.Ressources h' = Hub.Ressources h
  ∧ length (Hub.store h') = length (Hub.store h)
  ∧ (∀ rp r, registered h rp → Hub.store h !! rp = Some r →
       ∃ r', Hub.store h' !! rp = Some r'
         ∧ (c ∉ Ressource.Receivers r')
         ∧ Ressource.Receivers r' = filter (λ x, x ≠ c) (Ressource.Receivers r)
         ∧ (∀ c', c' ≠ c →
              (c' ∈ Ressource.Receivers r' ↔ c' ∈ Ressource.Receivers r))
         ∧ Ressource.ContainerID r' = Ressource.ContainerID r
         ∧ Ressource.Event r' = Ressource.Event r
         ∧ Ressource.Stream r' = Ressource.Stream r)
  ∧ (∀ rp, ¬ registered h rp → Hub.store h' !! rp = Hub.store h !! rp).
Proof.
  intros h'. subst h'. rewrite ClientLeave_flat.
  destruct (leave_slice_frame c (mjoin ((map_to_list (Hub.Ressources h)).*2)) h)
    as (Hreg & _ & _ & _ & Hlen).
  split; [done|]. split; [done|]. split.
  - intros rp r Hrp Hr. apply registered_flat in Hrp.
    rewrite leave_slice_lookup_in by done. rewrite Hr. simpl.
    eexists. split; [done|]. simpl.
    split; [|split; [done|split; [|done]]].
    + intros Hin. apply list_elem_of_filter in Hin as [Hne _]. by apply Hne.
    + intros c' Hne. rewrite list_elem_of_filter. tauto.
  - intros rp Hrp. apply leave_slice_lookup_notin.
    intros Hin. by apply Hrp, registered_flat.
Qed.

(** ** Subscribe for an unknown container *)

(** C6. When the inventory does not know the demand's container id,
    [Subscribe] returns the hub as it was.  In particular the registry is
    unchanged, no resource is allocated, no goroutine is started, and the
    demanding client is sent nothing; the function returns no value. *)
Theorem Subscribe_unknown_container_is_noop
  (ContainerGet : string → option ContainerPtr) (dem : Demand.t) (h : Hub.t) :
  ContainerGet (Demand.CID dem) = None →
  let h' := Hub.Subscribe ContainerGet dem h in
  h' = h
  ∧ Hub.Ressources h' = Hub.Ressources h
  ∧ Hub.store h' = Hub.store h
  ∧ Hub.spawned h' = Hub.spawned h
  ∧ Hub.received (Demand.Client dem) h' = Hub.received (Demand.Client dem) h.
Proof.
  intros Hget h'. assert (Hh : h' = h).
  { subst h'. unfold Hub.Subscribe. by rewrite Hget. }
  by rewrite Hh.
Qed.

(** The inventory knows ["c1"] only; a demand for ["c9"] changes nothing in
    a hub that serves the metrics of ["c1"]. *)
Lemma Subscribe_unknown_container_is_noop_witness :
  let h := Hub.run inventory1 [Hub.OpSubscribe demand_A] Hub.NewHub in
  let dem := Demand.mk "metrics" "c9" 11 in
  inventory1 (Demand.CID dem) = None
  ∧ Hub.Subscribe inventory1 dem h = h.
Proof.
  intros h dem. split; [reflexivity|].
  exact (proj1 (Subscribe_unknown_container_is_noop inventory1 dem h eq_refl)).
Defined.


(** ** RemoveRessource *)

(** C5. [RemoveRessource] tests the receiver list and looks the resource up
    before it takes the lock, and removes under the lock with what it read.
    Resource 0 of container 1 has lost its only receiver; its goroutine reads
    "no receiver, index 0 of the slice [0]".  Before it takes the lock the
    control loop serves the demand of client 11, which joins resource 0.  The
    locked part then takes resource 0 out of the registry although its
    receiver list is [11] at that time; [RemoveRessource] run as a whole on
    the same state leaves the registry alone. *)
Theorem RemoveRessource_check_before_lock :
  let h0 := Hub.run inventory1 [Hub.OpSubscribe demand_A; Hub.OpClientLeave 10]
              Hub.NewHub in
  let h1 := Hub.Subscribe inventory1 demand_B h0 in
  Hub.RemoveRessource_check 1 0 h0 = Some ([0], 0)
  ∧ Ressource.Receivers <$> Hub.store h1 !! 0 = Some [11]
  ∧ Hub.Ressources h1 !! 1 = Some [0]
  ∧ (∃ h2, Hub.RemoveRessource_locked 1 ([0], 0) h1 = Some h2
           ∧ Ressource.Receivers <$> Hub.store h2 !! 0 = Some [11]
           ∧ Hub.Ressources h2 !! 1 = Some [])
  ∧ Hub.RemoveRessource 1 0 h1 = h1.
Proof.
  split; [reflexivity|]. split; [reflexivity|]. split; [reflexivity|].
  split; [|reflexivity]. eexists. split; [reflexivity|]. split; reflexivity.
Qed.

(** The slice read before the lock is also what the locked part writes back.
    When the control loop registers the first resource for the logs of the
    container in between, that resource is dropped from the registry with
    its receiver; the next demand for the logs starts a second goroutine. *)
Lemma RemoveRessource_stale_slice :
  let h0 := Hub.run inventory1 [Hub.OpSubscribe demand_A; Hub.OpClientLeave 10]
              Hub.NewHub in
  let h1 := Hub.Subscribe inventory1 demand_logs h0 in
  Hub.RemoveRessource_check 1 0 h0 = Some ([0], 0)
  ∧ Hub.Ressources h1 !! 1 = Some [0; 1]
  ∧ ∃ h2, Hub.RemoveRessource_locked 1 ([0], 0) h1 = Some h2
          ∧ Hub.Ressources h2 !! 1 = Some []
          ∧ Ressource.Receivers <$> Hub.store h2 !! 1 = Some [12]
          ∧ Hub.spawned (Hub.Subscribe inventory1 demand_logs h2)
            = [(1, 0); (1, 1); (1, 3)].
Proof.
  split; [reflexivity|]. split; [reflexivity|].
  eexists. split; [reflexivity|]. split; [reflexivity|]. split; reflexivity.
Qed.

(** ** The control loop *)

Section RunFacts.

Variable ContainerGet : string → option ContainerPtr.

Lemma Run_select_Relay pick s s' :
  Hub.Run_select ContainerGet pick s = Some s' →
  Hub.Eps_Relay s'.1 = Hub.Eps_Relay s.1.
Proof.
  destruct s as [eps h], pick; simpl.
  - destruct (Hub.Eps_Subscribe eps); [done|]. by intros [= <-].
  - destruct (Hub.Eps_Unsubscribe eps); [done|]. by intros [= <-].
  - destruct (Hub.Eps_Leave eps); [done|]. by intros [= <-].
Qed.

Lemma Run_Relay picks : ∀ s,
  Hub.Eps_Relay (Hub.Run ContainerGet picks s).1 = Hub.Eps_Relay s.1.
Proof.
  induction picks as [|pick rest IH]; intros s; simpl; [done|].
  destruct (Hub.Run_select ContainerGet pick s) as [s'|] eqn:Hsel; [|apply IH].
  rewrite IH. by eapply Run_select_Relay.
Qed.

End RunFacts.

(** C9, as stated, fails: with a set offered on [Relay] and nothing on the
    other three channels, no case of the [select] can proceed, and no run of
    the loop, whatever its schedule, receives the set. *)
Lemma Run_never_receives_Relay :
  let s := (Hub.mkEndpoints [] [] [] ["set"], Hub.NewHub) in
  (∀ pick, Hub.Run_select inventory1 pick s = None)
  ∧ (∀ picks, Hub.Run inventory1 picks s = s).
Proof.
  split.
  - by intros [].
  - induction picks as [|[] rest IH]; simpl; done.
Qed.

(** C9, amended. An iteration of [Run] receives one value from [Subscribe],
    [Unsubscribe] or [Leave], the one offered first on that channel, and
    hands it to [Hub.Subscribe], [Hub.Unsubscribe] or [Hub.ClientLeave]; the
    other channels keep what they offer.  What is offered on [Relay] is
    never received, by any run of the loop. *)
Theorem Run_serves_three_channels
  (ContainerGet : string → option ContainerPtr) (pick : Hub.select_case)
  (eps eps' : Hub.Endpoints) (h h' : Hub.t) :
  Hub.Run_select ContainerGet pick (eps, h) = Some (eps', h') →
  match pick with
  | Hub.CaseSubscribe =>
      ∃ dem, Hub.Eps_Subscribe eps = dem :: Hub.Eps_Subscribe eps'
             ∧ h' = Hub.Subscribe ContainerGet dem h
             ∧ Hub.Eps_Unsubscribe eps' = Hub.Eps_Unsubscribe eps
             ∧ Hub.Eps_Leave eps' = Hub.Eps_Leave eps
  | Hub.CaseUnsubscribe =>
      ∃ dem, Hub.Eps_Unsubscribe eps = dem :: Hub.Eps_Unsubscribe eps'
             ∧ h' = Hub.Unsubscribe ContainerGet dem h
             ∧ Hub.Eps_Subscribe eps' = Hub.Eps_Subscribe eps
             ∧ Hub.Eps_Leave eps' = Hub.Eps_Leave eps
  | Hub.CaseLeave =>
      ∃ client, Hub.Eps_Leave eps = client :: Hub.Eps_Leave eps'
                ∧ h' = Hub.ClientLeave client h
                ∧ Hub.Eps_Subscribe eps' = Hub.Eps_Subscribe eps
                ∧ Hub.Eps_Unsubscribe eps' = Hub.Eps_Unsubscribe eps
  end
  ∧ Hub.Eps_Relay eps' = Hub.Eps_Relay eps
  ∧ ∀ picks, Hub.Eps_Relay (Hub.Run ContainerGet picks (eps, h)).1
             = Hub.Eps_Relay eps.
Proof.
  intros Hsel. split; [|split].
  - destruct pick; simpl in Hsel.
    + destruct (Hub.Eps_Subscribe eps) as [|dem rest]; [done|].
      inversion Hsel; subst. by exists dem.
    + destruct (Hub.Eps_Unsubscribe eps) as [|dem rest]; [done|].
      inversion Hsel; subst. by exists dem.
    + destruct (Hub.Eps_Leave eps) as [|client rest]; [done|].
      inversion Hsel; subst. by exists client.
  - exact (Run_select_Relay _ _ _ _ Hsel).
  - intros picks. apply (Run_Relay ContainerGet picks (eps, h)).
Qed.

(** The loop serves a demand offered on [Subscribe] while a set stays on
    [Relay]. *)
Lemma Run_serves_three_channels_witness :
  Hub.Run_select inventory1 Hub.CaseSubscribe
    (Hub.mkEndpoints [demand_A] [] [] ["set"], Hub.NewHub)
  = Some (Hub.mkEndpoints [] [] [] ["set"],
          Hub.Subscribe inventory1 demand_A Hub.NewHub)
  ∧ Hub.Eps_Relay (Hub.mkEndpoints [] [] [] ["set"]) = ["set"].
Proof.
  split; [reflexivity|].
  exact (proj1 (proj2 (Run_serves_three_channels inventory1 Hub.CaseSubscribe
                         (Hub.mkEndpoints [demand_A] [] [] ["set"])
                         (Hub.mkEndpoints [] [] [] ["set"])
                         Hub.NewHub (Hub.Subscribe inventory1 demand_A Hub.NewHub)
                         eq_refl))).
Defined.

(** ** The event handler *)

(** C2. What the handler does with one event.  An event whose type is not
    the container type gets the line on standard output and nothing else: no
    call on the inventory, no log entry.  A container event with status
    "start", "stop" or "destroy" makes exactly one call on the inventory,
    [Add], [Stop] or [Remove] of the event's id, and the inventory is what
    that call returns.  A container event with any other status makes no
    call on the inventory and its only log entry is the warning. *)
Theorem HandleEvents_dispatch
  (Inventory : Type)
  (Add Stop Remove : string → Inventory → Inventory * option string)
  (event : Controller.Message) (inv : Inventory) :
  let res := Controller.handle Inventory Add Stop Remove event inv in
  (Controller.Type_ event ≠ Controller.ContainerEventType →
     res = (inv, [Controller.Println "handling event"])
     ∧ Controller.inventory_calls res.2 = []
     ∧ Controller.logs res.2 = [])
  ∧ (Controller.Type_ event = Controller.ContainerEventType →
       (Controller.Status event = "start" →
          Controller.inventory_calls res.2
          = [Controller.Containers_Add (Controller.ID event)]
          ∧ res.1 = (Add (Controller.ID event) inv).1)
       ∧ (Controller.Status event = "stop" →
            Controller.inventory_calls res.2
            = [Controller.Containers_Stop (Controller.ID event)]
            ∧ res.1 = (Stop (Controller.ID event) inv).1)
       ∧ (Controller.Status event = "destroy" →
            Controller.inventory_calls res.2
            = [Controller.Containers_Remove (Controller.ID event)]
            ∧ res.1 = (Remove (Controller.ID event) inv).1)
       ∧ (Controller.Status event ≠ "start" →
          Controller.Status event ≠ "stop" →
          Controller.Status event ≠ "destroy" →
            Controller.inventory_calls res.2 = []
            ∧ Controller.logs res.2
              = [Controller.Log Controller.Warn
                   "- CONTROLLER - event %s is unkown or not implemented\n"
                   [Controller.Status event]]
            ∧ res.1 = inv)).
Proof.
  intros res. subst res. unfold Controller.handle.
  destruct (String.eqb_spec (Controller.Type_ event) Controller.ContainerEventType)
    as [Hty|Hty]; simpl.
  { split; [done|]. intros _.
    destruct (String.eqb_spec (Controller.Status event) "start") as [Hs|Hs].
    { rewrite Hs. unfold Controller.ContainerStart.
      destruct (Add (Controller.ID event) inv) as [inv' [err|]]; simpl;
        (split; [done|]); repeat split; done. }
    destruct (String.eqb_spec (Controller.Status event) "stop") as [Hp|Hp].
    { rewrite Hp. unfold Controller.ContainerStop.
      destruct (Stop (Controller.ID event) inv) as [inv' [err|]]; simpl;
        (split; [done|]); repeat split; done. }
    destruct (String.eqb_spec (Controller.Status event) "destroy") as [Hd|Hd].
    { rewrite Hd. unfold Controller.ContainerDestroy.
      destruct (Remove (Controller.ID event) inv) as [inv' [err|]]; simpl;
        (split; [done|]); repeat split; done. }
    simpl. repeat split; done. }
  split; [done|]. intros Heq. done.
Qed.

(** The calls made for a run of messages are those of its events, one
    after the other. *)
Lemma handle_all_cons (Inventory : Type)
  (Add Stop Remove : string → Inventory → Inventory * option string)
  (event : Controller.Message) (rest : list Controller.Data) (inv : Inventory) :
  let first := Controller.handle Inventory Add Stop Remove event inv in
  let others := Controller.handle_all Inventory Add Stop Remove rest first.1 in
  Controller.handle_all Inventory Add Stop Remove
    (Controller.IsMessage event :: rest) inv
  = (others.1, first.2 ++ others.2).
Proof.
  simpl. destruct (Controller.handle _ _ _ _ event inv) as [inv1 tr1]. simpl.
  by destruct (Controller.handle_all _ _ _ _ rest inv1).
Qed.

(** [HandleEvents] makes the calls of its loop, and none when
    [ctr.Events.Get()] fails. *)
Lemma HandleEvents_calls (Inventory : Type)
  (Add Stop Remove : string → Inventory → Inventory * option string)
  (get : list Controller.Data + string) (inv : Inventory) :
  Controller.inventory_calls
    (Controller.HandleEvents Inventory Add Stop Remove get inv).2
  = match get with
    | inl sets =>
        Controller.inventory_calls
          (Controller.handle_all Inventory Add Stop Remove sets inv).2
    | inr _ => []
    end.
Proof.
  destruct get as [sets|err]; simpl; [|done].
  by destruct (Controller.handle_all _ _ _ _ sets inv).
Qed.

(** The later revision of the handler makes the same calls on the
    inventory. *)
Lemma handle_with_about_calls (Inventory : Type)
  (Add Stop Remove : string → Inventory → Inventory * option string)
  (event : Controller.Message) (inv : Inventory) :
  let res := Controller.handle Inventory Add Stop Remove event inv in
  let res' := Controller.handle_with_about Inventory Add Stop Remove event inv in
  res'.1 = res.1
  ∧ Controller.inventory_calls res'.2 = Controller.inventory_calls res.2
  ∧ Controller.logs res'.2 = Controller.logs res.2.
Proof.
  simpl. unfold Controller.handle_with_about.
  destruct (negb _) eqn:Hty.
  { unfold Controller.handle. by rewrite Hty. }
  destruct (Controller.handle _ _ _ _ event inv) as [inv' tr]. simpl.
  unfold Controller.inventory_calls, Controller.logs.
  rewrite !List.filter_app. simpl. by rewrite !app_nil_r.
Qed.

(** ** Startup *)

(** The later revision of [Init] returns what the first returns. *)
Lemma Init_with_about_result (about volumes : option string)
  (s : Controller.Startup) :
  (Controller.Init_with_about about volumes s).1 = (Controller.Init s).1.
Proof.
  unfold Controller.Init_with_about, Controller.Init.
  by destruct (Controller.Init_from_Events s).
Qed.

(** C8, as stated, fails: when the sink's [Init] fails, [Controller.Init]
    returns the error, but [API.Run] goes on to start the hub's loop and the
    router; and [Storage.Init] returns [nil]. *)
Lemma DB_Init_failure_does_not_stop_Run :
  let s := Controller.mkStartup None None None (Some "no connection") in
  (Controller.Init s).1 = Some "no connection"
  ∧ last (API.Run ":8080" s) = Some (API.Router_Run ":8080")
  ∧ API.Go_Hub_Run ∈ API.Run ":8080" s
  ∧ (Controller.Storage_Init s).1 = None.
Proof.
  split; [reflexivity|]. split; [reflexivity|]. split; [|reflexivity].
  simpl. do 8 right. left.
Qed.

(** C8, amended. When the event source has started and the [Init] of the
    image store, of the container store or of the sink is the first to fail,
    [Controller.Init] returns that error to its caller, and does not run the
    steps that follow the failing one.  [API.Run], the caller, does not look
    at the returned value: after [Init] it starts the hub's loop and the
    router in every case. *)
Theorem Init_returns_first_failure (s : Controller.Startup) (err : string) :
  Controller.events_init s = None →
  Controller.images_init s = Some err
  ∨ (Controller.images_init s = None ∧ Controller.containers_init s = Some err)
  ∨ (Controller.images_init s = None ∧ Controller.containers_init s = None
     ∧ Controller.db_init s = Some err) →
  (Controller.Init s).1 = Some err
  ∧ (Controller.images_init s = Some err →
       (Controller.Containers_Init ∉ (Controller.Init s).2)
       ∧ (Controller.Go_BroadcastWriter ∉ (Controller.Init s).2)
       ∧ (Controller.DB_Init ∉ (Controller.Init s).2))
  ∧ (Controller.images_init s = None →
     Controller.containers_init s = Some err →
       (Controller.Go_BroadcastWriter ∉ (Controller.Init s).2)
       ∧ (Controller.DB_Init ∉ (Controller.Init s).2))
  ∧ ∀ addr, API.Run addr s
            = (API.Controller_Init <$> (Controller.Init s).2)
              ++ [API.Go_Hub_Run; API.Router_Run addr].
Proof.
  intros Hev Hfail.
  unfold API.Run, Controller.Init, Controller.Init_from_Events. rewrite Hev.
  destruct (Controller.images_init s) as [e1|] eqn:H1.
  { destruct Hfail as [[= ->]|[[? _]|[? _]]]; try done. simpl.
    split; [done|]. split.
    - intros _. repeat split; intros Hin; repeat (apply elem_of_cons in Hin as [?|Hin]; [done|]);
        by apply elem_of_nil in Hin.
    - split; [done|]. done. }
  destruct (Controller.containers_init s) as [e2|] eqn:H2.
  { destruct Hfail as [?|[[_ [= ->]]|[_ [? _]]]]; try done. simpl.
    split; [done|]. split; [done|]. split; [|done].
    intros _ _. repeat split; intros Hin; repeat (apply elem_of_cons in Hin as [?|Hin]; [done|]);
      by apply elem_of_nil in Hin. }
  destruct (Controller.db_init s) as [e3|] eqn:H3.
  { destruct Hfail as [?|[[_ ?]|[_ [_ [= ->]]]]]; try done. }
  destruct Hfail as [?|[[_ ?]|[_ [_ ?]]]]; done.
Qed.

(** The container store fails to start. *)
Lemma Init_returns_first_failure_witness :
  let s := Controller.mkStartup None None (Some "no engine") None in
  Controller.events_init s = None
  ∧ (Controller.images_init s = None
     ∧ Controller.containers_init s = Some "no engine")
  ∧ (Controller.Init s).1 = Some "no engine".
Proof.
  intros s. split; [reflexivity|]. split; [split; reflexivity|].
  exact (proj1 (Init_returns_first_failure s "no engine" eq_refl
                  (or_intror (or_introl (conj eq_refl eq_refl))))).
Defined.

(** ** The not-found test of the handlers *)

Section NotFound.

Variable Controller_Container : string → ContainerPtr.
Variable MarshalJSON : ContainerPtr → string + string.
Variable MetricsStream Logs_Stream : ContainerPtr → list string.
Variable con_WriteJSON : string → string → option string.

Lemma metrics_loop_no_HttpErr metrics : ∀ err status msg,
  API.HttpErr status msg ∉ API.metrics_loop con_WriteJSON metrics err.
Proof.
  induction metrics as [|set rest IH]; intros err status msg; simpl.
  { apply not_elem_of_nil. }
  destruct err.
  - intros Hin. apply list_elem_of_singleton in Hin. done.
  - apply not_elem_of_cons. split; [done|apply IH].
Qed.

Lemma logs_loop_no_HttpErr entries : ∀ status msg,
  API.HttpErr status msg ∉ API.logs_loop con_WriteJSON entries.
Proof.
  induction entries as [|entry rest IH]; intros status msg; simpl.
  { intros Hin. repeat (apply elem_of_cons in Hin as [?|Hin]; [done|]).
    by apply elem_of_nil in Hin. }
  apply not_elem_of_cons. split; [done|].
  destruct (con_WriteJSON "entry" entry); [|apply IH].
  intros Hin. apply list_elem_of_singleton in Hin. done.
Qed.

End NotFound.

(** C10. The pointer a lookup returns is [nil] or the address of a variable
    that exists; [&dock.Container{}] is the address of a new variable.  So
    the comparison of the three handlers is false for every id, and none of
    them ever answers "container not found" with status 404: [Container]
    answers with the marshalled container or with status 500, the websocket
    handlers with status 500 or with their stream. *)
Theorem container_not_found_is_unreachable
  (Controller_Container : string → ContainerPtr)
  (MarshalJSON : ContainerPtr → string + string)
  (MetricsStream Logs_Stream : ContainerPtr → list string)
  (con_WriteJSON : string → string → option string)
  (upgrade : option string) (allocated : nat) (id : string) :
  Controller_Container id ≤ allocated →
  Controller_Container id ≠ (API.new_Container allocated).1
  ∧ (∀ msg, API.HttpErr API.StatusNotFound msg
            ∉ API.Container Controller_Container MarshalJSON allocated id)
  ∧ (∀ msg, API.HttpErr 404 msg
            ∉ API.metricsWS Controller_Container MetricsStream con_WriteJSON
                upgrade allocated id)
  ∧ (∀ msg, API.HttpErr 404 msg
            ∉ API.logsWS Controller_Container Logs_Stream con_WriteJSON
                upgrade allocated id).
Proof.
  intros Hle.
  assert (Hne : Controller_Container id ≠ S allocated) by lia.
  split; [done|]. split; [|split]; intros msg.
  - unfold API.Container. simpl. rewrite decide_False by done.
    destruct (MarshalJSON (Controller_Container id));
      intros Hin; apply list_elem_of_singleton in Hin; done.
  - unfold API.metricsWS. destruct upgrade.
    + intros Hin. apply list_elem_of_singleton in Hin. done.
    + simpl. rewrite decide_False by done. apply metrics_loop_no_HttpErr.
  - unfold API.logsWS. destruct upgrade.
    + intros Hin. apply list_elem_of_singleton in Hin. done.
    + simpl. rewrite decide_False by done. apply logs_loop_no_HttpErr.
Qed.

(** No container has the id ["nope"]: the lookup returns [nil], and the
    handler still does not answer 404. *)
Lemma container_not_found_is_unreachable_witness :
  let lookup := λ id : string, if String.eqb id "c1" then 1 else 0 in
  let marshal := λ p : nat, if decide (p = 0) then inr "nil container"
                            else inl "{}" in
  lookup "nope" ≤ 1
  ∧ API.Container lookup marshal 1 "nope"
    = [API.HttpErr API.StatusInternalServerError "nil container"]
  ∧ lookup "nope" ≠ (API.new_Container 1).1.
Proof.
  intros lookup marshal.
  assert (Hle : lookup "nope" ≤ 1) by (cbv; lia).
  split; [exact Hle|]. split; [reflexivity|].
  exact (proj1 (container_not_found_is_unreachable lookup marshal
                  (λ _, []) (λ _, []) (λ _ _, None) None 1 "nope" Hle)).
Defined.

(** * More properties of the code *)

(** ** Unsubscribe *)

(** X1. [Unsubscribe] leaves the registry, the frames, the inboxes and the
    goroutines as they are and rewrites at most one resource.  A resource
    whose container id or kind differs from the demand's, or that does not
    hold the client, is unchanged; every resource keeps its id, its kind,
    its stream and all receivers other than the client.  With an unknown
    container id nothing changes.  In a state of the registry invariant the
    registered resource of the demand's id and kind no longer holds the
    client. *)
Theorem Unsubscribe_one_receiver_list
  (ContainerGet : string → option ContainerPtr) (dem : Demand.t) (h : Hub.t) :
  let h' := Hub.Unsubscribe ContainerGet dem h in
  Hub.Ressources h' = Hub.Ressources h
  ∧ Hub.frames h' = Hub.frames h
  ∧ Hub.inbox h' = Hub.inbox h
  ∧ Hub.spawned h' = Hub.spawned h
  ∧ length (Hub.store h') = length (Hub.store h)
  ∧ (∀ rp r, Hub.store h !! rp = Some r →
       ¬ (Ressource.ContainerID r = Demand.CID dem
          ∧ Ressource.Event r = Demand.Ressource dem)
       ∨ Demand.Client dem ∉ Ressource.Receivers r →
       Hub.store h' !! rp = Some r)
  ∧ (∀ rp r, Hub.store h !! rp = Some r →
       ∃ r', Hub.store h' !! rp = Some r'
         ∧ Ressource.ContainerID r' = Ressource.ContainerID r
         ∧ Ressource.Event r' = Ressource.Event r
         ∧ Ressource.Stream r' = Ressource.Stream r
         ∧ ∀ c, c ≠ Demand.Client dem →
                (c ∈ Ressource.Receivers r' ↔ c ∈ Ressource.Receivers r))
  ∧ (ContainerGet (Demand.CID dem) = None → h' = h)
  ∧ (wf ContainerGet h →
     ∀ rp r, registered h rp → Hub.store h !! rp = Some r →
       Ressource.ContainerID r = Demand.CID dem →
       Ressource.Event r = Demand.Ressource dem →
       ∃ r', Hub.store h' !! rp = Some r'
             ∧ Demand.Client dem ∉ Ressource.Receivers r').
Proof.
  intros h'. subst h'. unfold Hub.Unsubscribe.
  destruct (ContainerGet (Demand.CID dem)) as [container|] eqn:Hget.
  2:{ split_and!; try done.
      - intros rp r Hr. by exists r.
      - intros Hwf rp r (c & Hreg) Hr Hc He.
        destruct (wf_bound _ _ Hwf c rp Hreg) as (r1 & Hr1 & Hget1).
        congruence. }
  destruct (Hub.Ressource ContainerGet (Demand.CID dem) (Demand.Ressource dem) h)
    as [res|] eqn:Hres.
  2:{ split_and!; try done.
      - intros rp r Hr. by exists r.
      - intros Hwf rp r Hreg Hr Hc He. exfalso.
        eapply (Ressource_None ContainerGet); [done..|].
        unfold key_of. rewrite Hr. simpl. by rewrite Hc, He. }
  destruct (Ressource_Some _ _ _ _ _ Hres) as (c & Hc & Hregres & Hkey).
  assert (Hsame : ∀ rp r, wf ContainerGet h → registered h rp →
            Hub.store h !! rp = Some r →
            Ressource.ContainerID r = Demand.CID dem →
            Ressource.Event r = Demand.Ressource dem → rp = res).
  { intros rp r Hwf Hreg Hr Hc' He'.
    eapply (wf_unique ContainerGet h); [done|done|by exists c| |exact Hkey].
    unfold key_of. rewrite Hr. simpl. by rewrite Hc', He'. }
  unfold key_of in Hkey.
  destruct (Hub.store h !! res) as [r0|] eqn:Hr0; [|done].
  simpl in Hkey. injection Hkey as Hid0 Hev0.
  destruct (bool_decide (Demand.Client dem ∈ Ressource.Receivers r0)) eqn:Hin.
  2:{ apply bool_decide_eq_false in Hin. split_and!; try done.
      - intros rp r Hr. by exists r.
      - intros Hwf rp r Hreg Hr Hc' He'. exists r. split; [done|].
        assert (rp = res) as -> by exact (Hsame rp r Hwf Hreg Hr Hc' He'). congruence. }
  apply bool_decide_eq_true in Hin.
  split_and!; try done.
  - simpl. by rewrite length_alter.
  - intros rp r Hr Hcase. destruct (decide (rp = res)) as [->|Hne].
    + rewrite Hr0 in Hr. inversion Hr; subst r0.
      destruct Hcase as [Hk|Hnotin]; [|done]. by destruct Hk.
    + by rewrite update_lookup_ne.
  - intros rp r Hr. destruct (decide (rp = res)) as [->|Hne].
    + rewrite update_lookup_eq, Hr. simpl. eexists. split; [done|]. simpl.
      split_and!; try done. intros c' Hne. rewrite list_elem_of_filter. tauto.
    + rewrite update_lookup_ne by done. by exists r.
  - intros Hwf rp r Hreg Hr Hc' He'.
    assert (rp = res) as -> by exact (Hsame rp r Hwf Hreg Hr Hc' He').
    rewrite update_lookup_eq, Hr. simpl. eexists. split; [done|]. simpl.
    intros Hx. apply list_elem_of_filter in Hx as [Hx _]. by apply Hx.
Qed.

(** ** RemoveRessource, run as a whole *)

(** X2. [RemoveRessource], run as a whole.  It does nothing when the
    resource has a receiver or is not in the slice of the container.
    Otherwise the slice loses the first occurrence of the pointer and
    nothing else, and the key stays in the registry, with an empty slice if
    the resource was the last one.  In both cases the slices of the other
    containers, every stored resource, the frames, the inboxes and the
    goroutines are unchanged, and the part under the lock does not index
    out of range.  On a slice without duplicates the pointer is gone
    afterwards and a second call changes nothing. *)
Theorem RemoveRessource_removes_idle_only
  (c : ContainerPtr) (rp : ResPtr) (h : Hub.t) :
  let h' := Hub.RemoveRessource c rp h in
  (Hub.no_receivers rp h = false ∨ rp ∉ Hub.slice_of c h → h' = h)
  ∧ (Hub.no_receivers rp h = true → rp ∈ Hub.slice_of c h →
       ∃ i, Hub.slices_Index (Hub.slice_of c h) rp = Some i
         ∧ Hub.Ressources h' !! c = Some (delete i (Hub.slice_of c h))
         ∧ S (length (Hub.slice_of c h')) = length (Hub.slice_of c h)
         ∧ ∀ x, x ≠ rp → (x ∈ Hub.slice_of c h' ↔ x ∈ Hub.slice_of c h))
  ∧ (∀ c', c' ≠ c → Hub.Ressources h' !! c' = Hub.Ressources h !! c')
  ∧ (∀ x r, Hub.store h !! x = Some r → Hub.store h' !! x = Some r)
  ∧ Hub.frames h' = Hub.frames h
  ∧ Hub.inbox h' = Hub.inbox h
  ∧ Hub.spawned h' = Hub.spawned h
  ∧ (∀ found, Hub.RemoveRessource_check c rp h = Some found →
       is_Some (Hub.RemoveRessource_locked c found h))
  ∧ (NoDup (Hub.slice_of c h) → Hub.no_receivers rp h = true →
       (rp ∉ Hub.slice_of c h') ∧ Hub.RemoveRessource c rp h' = h').
Proof.
  intros h'.
  assert (Hkept : Hub.no_receivers rp h = false ∨ rp ∉ Hub.slice_of c h → h' = h)
    by apply RemoveRessource_kept.
  assert (Hrem : Hub.no_receivers rp h = true → rp ∈ Hub.slice_of c h →
            ∃ i, Hub.slices_Index (Hub.slice_of c h) rp = Some i
                 ∧ Hub.slice_of c h !! i = Some rp
                 ∧ h' = Hub.mk (<[c := delete i (Hub.slice_of c h)]> (Hub.Ressources h))
                          (Hub.store h ++ [Ressource.zero])
                          (Hub.frames h) (Hub.inbox h) (Hub.spawned h)).
  { intros Hno Hin. destruct (slices_Index_elem _ _ Hin) as [i Hidx].
    exists i. split; [done|]. split; [by apply slices_Index_Some in Hidx as [? _]|].
    by apply RemoveRessource_removed. }
  assert (Hcases : h' = h ∨ (Hub.no_receivers rp h = true ∧ rp ∈ Hub.slice_of c h)).
  { destruct (Hub.no_receivers rp h) eqn:Hno; [|left; apply Hkept; by left].
    destruct (decide (rp ∈ Hub.slice_of c h)); [by right|].
    left. apply Hkept. by right. }
  clearbody h'. split; [done|]. split.
  { intros Hno Hin. destruct (Hrem Hno Hin) as (i & Hidx & Hi & ->).
    exists i. split; [done|]. simpl. rewrite lookup_insert_eq. split; [done|].
    match goal with
    | |- context [Hub.slice_of c ?h1] =>
        lazymatch h1 with
        | Hub.mk _ _ _ _ _ =>
            assert (Hs : Hub.slice_of c h1 = delete i (Hub.slice_of c h))
              by (unfold Hub.slice_of at 1; simpl; by rewrite lookup_insert_eq);
            rewrite !Hs
        end
    end.
    split.
    - rewrite length_delete by by eexists. apply lookup_lt_Some in Hi. lia.
    - intros x Hne. split.
      + intros Hx. eapply elem_of_submseteq; [done|].
        apply sublist_submseteq, sublist_delete.
      + intros Hx. by eapply elem_of_delete_ne. }
  split.
  { intros c' Hne. destruct Hcases as [->|[Hno Hin]]; [done|].
    destruct (Hrem Hno Hin) as (i & _ & _ & ->). simpl.
    by rewrite lookup_insert_ne. }
  split.
  { intros x r Hx. destruct Hcases as [->|[Hno Hin]]; [done|].
    destruct (Hrem Hno Hin) as (i & _ & _ & ->). simpl.
    by apply lookup_app_l_Some. }
  assert (Hrest : Hub.frames h' = Hub.frames h ∧ Hub.inbox h' = Hub.inbox h
                  ∧ Hub.spawned h' = Hub.spawned h).
  { destruct Hcases as [->|[Hno Hin]]; [done|].
    by destruct (Hrem Hno Hin) as (i & _ & _ & ->). }
  destruct Hrest as (? & ? & ?).
  split; [done|]. split; [done|]. split; [done|]. split.
  { intros [ressources rIdx]. unfold Hub.RemoveRessource_check.
    destruct (Hub.no_receivers rp h); [|done].
    destruct (Hub.slices_Index (Hub.slice_of c h) rp) as [i|] eqn:Hidx; [|done].
    intros [= <- <-]. apply slices_Index_Some in Hidx as [Hi _].
    apply lookup_lt_Some in Hi. unfold Hub.RemoveRessource_locked.
    rewrite decide_True by done. by eexists. }
  intros Hnd Hno.
  assert (Hnotin : rp ∉ Hub.slice_of c h').
  { destruct (decide (rp ∈ Hub.slice_of c h)) as [Hin|Hnotin].
    - destruct (Hrem Hno Hin) as (i & _ & Hi & ->).
      unfold Hub.slice_of at 1. simpl. rewrite lookup_insert_eq. simpl.
      by apply NoDup_delete_not_elem_of.
    - rewrite Hkept; [done|by right]. }
  split; [done|]. apply RemoveRessource_kept. by right.
Qed.

(** ** The control loop over a schedule *)

Section RunOrder.

Variable ContainerGet : string → option ContainerPtr.

Lemma Run_select_op pick eps h eps' h' :
  Hub.Run_select ContainerGet pick (eps, h) = Some (eps', h') →
  ∃ o, h' = Hub.exec ContainerGet h o
       ∧ Hub.Eps_Subscribe eps
         = from_option (λ x, [x]) [] (served_Subscribe o) ++ Hub.Eps_Subscribe eps'
       ∧ Hub.Eps_Unsubscribe eps
         = from_option (λ x, [x]) [] (served_Unsubscribe o)
           ++ Hub.Eps_Unsubscribe eps'
       ∧ Hub.Eps_Leave eps
         = from_option (λ x, [x]) [] (served_Leave o) ++ Hub.Eps_Leave eps'
       ∧ (is_Some (served_Subscribe o) ∨ is_Some (served_Unsubscribe o)
          ∨ is_Some (served_Leave o)).
Proof.
  destruct pick; simpl.
  - destruct (Hub.Eps_Subscribe eps) as [|dem rest]; [done|].
    intros [= <- <-]. exists (Hub.OpSubscribe dem). simpl. eauto 10.
  - destruct (Hub.Eps_Unsubscribe eps) as [|dem rest]; [done|].
    intros [= <- <-]. exists (Hub.OpUnsubscribe dem). simpl. eauto 10.
  - destruct (Hub.Eps_Leave eps) as [|client rest]; [done|].
    intros [= <- <-]. exists (Hub.OpClientLeave client). simpl. eauto 10.
Qed.

Lemma omap_cons_from_option {A B} (f : A → option B) x l :
  omap f (x :: l) = from_option (λ y, [y]) [] (f x) ++ omap f l.
Proof. simpl. by destruct (f x). Qed.

Lemma Run_ops picks : ∀ eps h,
  ∃ ops,
    (Hub.Run ContainerGet picks (eps, h)).2 = Hub.run ContainerGet ops h
    ∧ length ops ≤ length picks
    ∧ Forall (λ o, is_Some (served_Subscribe o) ∨ is_Some (served_Unsubscribe o)
                   ∨ is_Some (served_Leave o)) ops
    ∧ Hub.Eps_Subscribe eps
      = omap served_Subscribe ops
        ++ Hub.Eps_Subscribe (Hub.Run ContainerGet picks (eps, h)).1
    ∧ Hub.Eps_Unsubscribe eps
      = omap served_Unsubscribe ops
        ++ Hub.Eps_Unsubscribe (Hub.Run ContainerGet picks (eps, h)).1
    ∧ Hub.Eps_Leave eps
      = omap served_Leave ops
        ++ Hub.Eps_Leave (Hub.Run ContainerGet picks (eps, h)).1.
Proof.
  induction picks as [|pick rest IH]; intros eps h.
  { exists []. simpl. split_and!; try done. }
  cbn [Hub.Run].
  destruct (Hub.Run_select ContainerGet pick (eps, h)) as [[eps1 h1]|] eqn:Hsel.
  - destruct (Run_select_op _ _ _ _ _ Hsel) as (o & -> & Hs & Hu & Hl & Hk).
    destruct (IH eps1 (Hub.exec ContainerGet h o))
      as (ops & Hrun & Hlen & Hall & Hs' & Hu' & Hl').
    exists (o :: ops). rewrite !omap_cons_from_option, <- !app_assoc.
    rewrite <- Hs', <- Hu', <- Hl'.
    split_and!; try done; [simpl; lia|by constructor].
  - destruct (IH eps h) as (ops & Hrun & Hlen & Hall & Hs' & Hu' & Hl').
    exists ops. split_and!; try done. simpl; lia.
Qed.

End RunOrder.

(** X3. Along any schedule of its [select], [Run] applies the handlers to
    a run of values such that, per channel, what was offered is what was
    served, in the order offered, followed by what is still offered: no
    value is lost, served twice or overtaken on its channel.  It serves at
    most one value per iteration, serves nothing but the three channels,
    and keeps the registry invariant. *)
Theorem Run_serves_each_channel_in_order
  (ContainerGet : string → option ContainerPtr)
  (picks : list Hub.select_case) (eps : Hub.Endpoints) (h : Hub.t) :
  let s' := Hub.Run ContainerGet picks (eps, h) in
  ∃ ops,
    s'.2 = Hub.run ContainerGet ops h
    ∧ length ops ≤ length picks
    ∧ Forall (λ o, is_Some (served_Subscribe o) ∨ is_Some (served_Unsubscribe o)
                   ∨ is_Some (served_Leave o)) ops
    ∧ Hub.Eps_Subscribe eps = omap served_Subscribe ops ++ Hub.Eps_Subscribe s'.1
    ∧ Hub.Eps_Unsubscribe eps
      = omap served_Unsubscribe ops ++ Hub.Eps_Unsubscribe s'.1
    ∧ Hub.Eps_Leave eps = omap served_Leave ops ++ Hub.Eps_Leave s'.1
    ∧ (wf ContainerGet h → wf ContainerGet s'.2).
Proof.
  intros s'. subst s'.
  destruct (Run_ops ContainerGet picks eps h)
    as (ops & Hrun & Hlen & Hall & Hs & Hu & Hl).
  exists ops. split_and!; try done.
  rewrite Hrun. apply wf_run.
Qed.

(** ** A stream that ends while the resource has receivers *)

Section StreamEnd.

Variable ContainerGet : string → option ContainerPtr.

Lemma wf_fanout rp sets : ∀ h,
  wf ContainerGet h → wf ContainerGet (Hub.fanout rp sets h).
Proof.
  induction sets as [|set rest IH]; intros h Hwf; simpl; [done|].
  destruct (Hub.no_receivers rp (Hub.deliver rp set h));
    [by apply wf_deliver|]. by apply IH, wf_deliver.
Qed.

Lemma wf_HandleRessource container rp sets h :
  wf ContainerGet h → wf ContainerGet (Hub.HandleRessource container rp sets h).
Proof.
  intros Hwf. unfold Hub.HandleRessource.
  apply wf_RemoveRessource, wf_update; [done|].
  apply wf_fanout, wf_update; done.
Qed.

(** In a state of the invariant the lookup finds the registered resource
    of a container id and kind. *)
Lemma Ressource_registered h container rp r :
  wf ContainerGet h → registered_under h container rp →
  Hub.store h !! rp = Some r →
  Hub.Ressource ContainerGet (Ressource.ContainerID r) (Ressource.Event r) h
  = Some rp.
Proof.
  intros Hwf Hreg Hr.
  assert (Hkey : key_of (Hub.store h) rp
                 = Some (Ressource.ContainerID r, Ressource.Event r)).
  { unfold key_of. by rewrite Hr. }
  destruct (Hub.Ressource ContainerGet (Ressource.ContainerID r)
              (Ressource.Event r) h) as [x|] eqn:Hx.
  - destruct (Ressource_Some _ _ _ _ _ Hx) as (c & _ & Hregx & Hkeyx).
    f_equal. eapply (wf_unique ContainerGet h); [done|by exists c| |done..].
    by exists container.
  - exfalso. eapply (Ressource_None ContainerGet); [done..| |exact Hkey].
    by exists container.
Qed.

End StreamEnd.

(** X4. When the stream of a registered resource ends while the resource
    has receivers, [HandleRessource] has sent one frame per set, has quit
    the resource, and returns with the resource still in the registry:
    [RemoveRessource] does nothing, because the receiver list is not empty.
    The lookup still finds the resource, so the next [Subscribe] for its
    container id and kind appends the client to it and starts no
    goroutine. *)
Theorem HandleRessource_stream_end_keeps_Ressource
  (ContainerGet : string → option ContainerPtr) (ops : list Hub.op)
  (container : ContainerPtr) (rp : ResPtr) (r : Ressource.t)
  (sets : list string) (dem : Demand.t) :
  let h := Hub.run ContainerGet ops Hub.NewHub in
  registered_under h container rp →
  Hub.store h !! rp = Some r →
  Ressource.Receivers r ≠ [] →
  Demand.CID dem = Ressource.ContainerID r →
  Demand.Ressource dem = Ressource.Event r →
  let h1 := Hub.HandleRessource container rp sets h in
  let h2 := Hub.Subscribe ContainerGet dem h1 in
  Hub.Ressources h1 = Hub.Ressources h
  ∧ Hub.frames h1
    = Hub.frames h ++ (ResponseFrame.mk (Ressource.ContainerID r)
                         (Ressource.Event r) <$> sets)
  ∧ Hub.store h1 !! rp = Some (Ressource.Quit (Ressource.SetStreamer r))
  ∧ Hub.Ressource ContainerGet (Demand.CID dem) (Demand.Ressource dem) h1
    = Some rp
  ∧ Hub.Ressources h2 = Hub.Ressources h
  ∧ Hub.spawned h2 = Hub.spawned h
  ∧ Hub.store h2 !! rp
    = Some (Ressource.AddReceiver (Demand.Client dem)
              (Ressource.Quit (Ressource.SetStreamer r)))
  ∧ Hub.frames h2 = Hub.frames h1
  ∧ Hub.inbox h2 = Hub.inbox h1.
Proof.
  intros h Hreg Hr Hne Hcid Hkind h1 h2.
  assert (Hwf : wf ContainerGet h) by apply wf_run, wf_NewHub.
  assert (Hwf1 : wf ContainerGet h1) by by apply wf_HandleRessource.
  destruct (wf_bound _ _ Hwf container rp Hreg) as (r0 & Hr0 & Hget).
  assert (r0 = r) as -> by congruence.
  set (ha := Hub.update rp Ressource.SetStreamer h).
  assert (Hra : Hub.store ha !! rp = Some (Ressource.SetStreamer r)).
  { unfold ha. by rewrite update_lookup_eq, Hr. }
  destruct (fanout_all rp (Ressource.SetStreamer r) sets ha Hra Hne)
    as (Hb1 & Hb2 & Hb3 & Hb4 & _).
  set (hb := Hub.fanout rp sets ha) in *.
  set (hc := Hub.update rp Ressource.Quit hb).
  assert (Hrc : Hub.store hc !! rp = Some (Ressource.Quit (Ressource.SetStreamer r))).
  { unfold hc. by rewrite update_lookup_eq, Hb2, Hra. }
  assert (Hh1 : h1 = hc).
  { unfold h1, Hub.HandleRessource. fold ha. fold hb. fold hc.
    apply RemoveRessource_kept. left. unfold Hub.no_receivers. rewrite Hrc.
    by apply bool_decide_eq_false. }
  assert (Hreg1 : Hub.Ressources h1 = Hub.Ressources h).
  { rewrite Hh1. unfold hc. simpl. by rewrite Hb1. }
  assert (Hlook : Hub.Ressource ContainerGet (Demand.CID dem)
                    (Demand.Ressource dem) h1 = Some rp).
  { rewrite Hcid, Hkind.
    apply (Ressource_registered ContainerGet h1 container rp
             (Ressource.Quit (Ressource.SetStreamer r))); [done| |by rewrite Hh1].
    destruct Hreg as (rs & Hrs & Hin). exists rs. by rewrite Hreg1. }
  rewrite <- Hcid in Hget.
  assert (Hh2 : h2 = Hub.update rp (Ressource.AddReceiver (Demand.Client dem)) h1)
    by exact (Subscribe_found _ _ _ _ _ Hget Hlook).
  split; [done|]. split.
  { rewrite Hh1. unfold hc. simpl. by rewrite Hb4. }
  split; [by rewrite Hh1|]. split; [done|].
  rewrite Hh2. split; [done|]. split.
  { simpl. rewrite Hh1. unfold hc. simpl. by rewrite Hb3. }
  split; [|done]. rewrite update_lookup_eq, Hh1, Hrc. done.
Qed.

(** The stream of the metrics of ["c1"] ends after two sets while client 10
    is subscribed; client 11 then joins the resource that has been quit. *)
Lemma HandleRessource_stream_end_keeps_Ressource_witness :
  let h := Hub.run inventory1 [Hub.OpSubscribe demand_A] Hub.NewHub in
  let r := Ressource.mk "c1" "metrics" [10] Ressource.NoStream in
  let h1 := Hub.HandleRessource 1 0 ["cpu 1"; "cpu 2"] h in
  registered_under h 1 0
  ∧ Hub.store h !! 0 = Some r
  ∧ Hub.Ressources h1 = Hub.Ressources h
  ∧ Hub.spawned (Hub.Subscribe inventory1 demand_B h1) = [(1, 0)].
Proof.
  intros h r h1.
  assert (Hreg : registered_under h 1 0).
  { exists [0]. split; [reflexivity|]. apply list_elem_of_here. }
  assert (Hr : Hub.store h !! 0 = Some r) by reflexivity.
  assert (Hne : Ressource.Receivers r ≠ []) by discriminate.
  split; [exact Hreg|]. split; [exact Hr|].
  pose proof (HandleRessource_stream_end_keeps_Ressource inventory1
                [Hub.OpSubscribe demand_A] 1 0 r ["cpu 1"; "cpu 2"] demand_B
                Hreg Hr Hne eq_refl eq_refl) as H.
  cbv zeta in H. destruct H as (H1 & _ & _ & _ & _ & H2 & _).
  split; [exact H1|exact H2].
Defined.

(** ** What the clients are sent, over the schedules *)

Section Deliveries.

Variable ContainerGet : string → option ContainerPtr.

Implicit Types (h : Hub.t) (s : Hub.t * gmap nat Hub.pc) (e : Hub.event).

(** Only a round of a fan-out loop allocates a frame or sends one. *)
Lemma Subscribe_frames h dem :
  Hub.frames (Hub.Subscribe ContainerGet dem h) = Hub.frames h
  ∧ Hub.inbox (Hub.Subscribe ContainerGet dem h) = Hub.inbox h.
Proof.
  unfold Hub.Subscribe. destruct (ContainerGet _); [|done].
  by destruct (Hub.Ressource _ _ _ _).
Qed.

Lemma Unsubscribe_frames h dem :
  Hub.frames (Hub.Unsubscribe ContainerGet dem h) = Hub.frames h
  ∧ Hub.inbox (Hub.Unsubscribe ContainerGet dem h) = Hub.inbox h.
Proof.
  unfold Hub.Unsubscribe. destruct (ContainerGet _); [|done].
  destruct (Hub.Ressource _ _ _ _) as [res|]; [|done].
  destruct (Hub.store h !! res); [|done]. by destruct (bool_decide _).
Qed.

Lemma ClientLeave_frames h c :
  Hub.frames (Hub.ClientLeave c h) = Hub.frames h
  ∧ Hub.inbox (Hub.ClientLeave c h) = Hub.inbox h.
Proof.
  rewrite ClientLeave_flat.
  by destruct (leave_slice_frame c (mjoin ((map_to_list (Hub.Ressources h)).*2)) h)
    as (_ & ? & ? & _).
Qed.

Lemma RemoveRessource_frames h c rp :
  Hub.frames (Hub.RemoveRessource c rp h) = Hub.frames h
  ∧ Hub.inbox (Hub.RemoveRessource c rp h) = Hub.inbox h.
Proof. by destruct (RemoveRessource_cases h c rp) as [->|(i & _ & ->)]. Qed.

Lemma step_frames_cases s e :
  (Hub.frames (Hub.step ContainerGet s e).1 = Hub.frames s.1
   ∧ Hub.inbox (Hub.step ContainerGet s e).1 = Hub.inbox s.1)
  ∨ ∃ rp set, (Hub.step ContainerGet s e).1 = Hub.deliver rp set s.1.
Proof.
  destruct s as [h pcs], e as [dem|dem|cl|rp next]; simpl.
  - left. apply Subscribe_frames.
  - left. apply Unsubscribe_frames.
  - left. apply ClientLeave_frames.
  - destruct (Hub.started_with rp (Hub.spawned h)) as [container|]; [|by left].
    destruct (Hub.pc_of pcs rp); simpl; try (by left).
    + destruct next as [set|]; [right; by exists rp, set|by left].
    + left. apply RemoveRessource_frames.
Qed.

(** A round sends the new frame, as often as the client is entered. *)
Lemma deliver_received h rp data c :
  Hub.frames h `prefix_of` Hub.frames (Hub.deliver rp data h)
  ∧ ∃ n, Hub.received c (Hub.deliver rp data h)
         = Hub.received c h ++ replicate n (length (Hub.frames h))
         ∧ (0 < n →
            ∃ r, Hub.store h !! rp = Some r ∧ c ∈ Ressource.Receivers r
                 ∧ Hub.frames (Hub.deliver rp data h) !! length (Hub.frames h)
                   = Some (ResponseFrame.mk (Ressource.ContainerID r)
                             (Ressource.Event r) data)).
Proof.
  destruct (Hub.store h !! rp) as [r|] eqn:Hr.
  - rewrite (deliver_spec _ _ _ _ Hr). simpl. split; [by eexists|].
    exists (length (filter (λ x, x = c) (Ressource.Receivers r))).
    split; [unfold Hub.received; simpl; apply send_all_received|].
    intros Hn. exists r. split; [done|]. split.
    + destruct (decide (c ∈ Ressource.Receivers r)) as [|Hnotin]; [done|].
      rewrite entries_not_elem_of in Hn by done. lia.
    + by apply list_lookup_middle.
  - unfold Hub.deliver. rewrite Hr. split; [done|]. exists 0. simpl.
    split; [by rewrite app_nil_r|lia].
Qed.

(** A receiver entry of a stored resource was there before the event, or
    the event is the serving of the client's demand for the resource. *)
Lemma update_receivers h rp0 f rp r' c :
  (∀ r, Ressource.ContainerID (f r) = Ressource.ContainerID r
        ∧ Ressource.Event (f r) = Ressource.Event r
        ∧ ∀ x, x ∈ Ressource.Receivers (f r) → x ∈ Ressource.Receivers r) →
  Hub.store (Hub.update rp0 f h) !! rp = Some r' →
  c ∈ Ressource.Receivers r' →
  ∃ r, Hub.store h !! rp = Some r ∧ c ∈ Ressource.Receivers r
       ∧ Ressource.ContainerID r = Ressource.ContainerID r'
       ∧ Ressource.Event r = Ressource.Event r'.
Proof.
  intros Hf Hr' Hin. destruct (decide (rp0 = rp)) as [->|Hne].
  - rewrite update_lookup_eq in Hr'.
    destruct (Hub.store h !! rp) as [r|]; [|done]. simpl in Hr'.
    injection Hr' as <-. destruct (Hf r) as (? & ? & Hsub). exists r. auto.
  - rewrite update_lookup_ne in Hr' by done. by exists r'.
Qed.

Lemma RemoveClient_receivers cl r :
  Ressource.ContainerID (Ressource.RemoveClient cl r) = Ressource.ContainerID r
  ∧ Ressource.Event (Ressource.RemoveClient cl r) = Ressource.Event r
  ∧ ∀ x, x ∈ Ressource.Receivers (Ressource.RemoveClient cl r) →
         x ∈ Ressource.Receivers r.
Proof.
  split; [done|]. split; [done|]. simpl. intros x Hx.
  by apply list_elem_of_filter in Hx as [_ ?].
Qed.

Lemma ClientLeave_receivers h cl rp r' c :
  Hub.store (Hub.ClientLeave cl h) !! rp = Some r' →
  c ∈ Ressource.Receivers r' →
  ∃ r, Hub.store h !! rp = Some r ∧ c ∈ Ressource.Receivers r
       ∧ Ressource.ContainerID r = Ressource.ContainerID r'
       ∧ Ressource.Event r = Ressource.Event r'.
Proof.
  rewrite ClientLeave_flat. intros Hr' Hin.
  destruct (decide (rp ∈ mjoin ((map_to_list (Hub.Ressources h)).*2)))
    as [Hreg|Hreg].
  - rewrite leave_slice_lookup_in in Hr' by done.
    destruct (Hub.store h !! rp) as [r|]; [|done]. simpl in Hr'.
    injection Hr' as <-. simpl in Hin.
    apply list_elem_of_filter in Hin as [Hne Hin]. by exists r.
  - rewrite leave_slice_lookup_notin in Hr' by done. by exists r'.
Qed.

Lemma RemoveRessource_receivers h container rp0 rp r' c :
  Hub.store (Hub.RemoveRessource container rp0 h) !! rp = Some r' →
  c ∈ Ressource.Receivers r' →
  Hub.store h !! rp = Some r'.
Proof.
  destruct (RemoveRessource_cases h container rp0) as [->|(i & _ & ->)]; [done|].
  simpl. intros Hr' Hin.
  apply lookup_snoc_Some in Hr' as [[_ Hr']|[_ <-]]; [done|].
  by apply elem_of_nil in Hin.
Qed.

Lemma step_receivers s e rp r' c :
  Hub.store (Hub.step ContainerGet s e).1 !! rp = Some r' →
  c ∈ Ressource.Receivers r' →
  (∃ r, Hub.store s.1 !! rp = Some r ∧ c ∈ Ressource.Receivers r
        ∧ Ressource.ContainerID r = Ressource.ContainerID r'
        ∧ Ressource.Event r = Ressource.Event r')
  ∨ (e = Hub.Serve_Subscribe
           (Demand.mk (Ressource.Event r') (Ressource.ContainerID r') c)
     ∧ is_Some (ContainerGet (Ressource.ContainerID r'))).
Proof.
  destruct s as [h pcs], e as [dem|dem|cl|rp0 next]; simpl.
  - unfold Hub.Subscribe.
    destruct (ContainerGet (Demand.CID dem)) as [container|] eqn:Hget;
      [|intros; left; by exists r'].
    destruct (Hub.Ressource ContainerGet (Demand.CID dem) (Demand.Ressource dem) h)
      as [res|] eqn:Hres.
    + destruct (Ressource_Some _ _ _ _ _ Hres) as (_ & _ & _ & Hkey).
      destruct (decide (res = rp)) as [->|Hne].
      * rewrite update_lookup_eq. unfold key_of in Hkey.
        destruct (Hub.store h !! rp) as [r|]; [|done]. simpl in Hkey.
        injection Hkey as Hid Hev. simpl. intros [= <-]. simpl.
        intros [Hin| ->%list_elem_of_singleton]%elem_of_app.
        -- left. by exists r.
        -- right. rewrite Hid, Hev, Hget. split; [by destruct dem|done].
      * rewrite update_lookup_ne by done. intros; left; by exists r'.
    + simpl. intros Hr' Hin.
      apply lookup_snoc_Some in Hr' as [[_ Hr']|[_ <-]];
        [left; by exists r'|].
      simpl in Hin. apply list_elem_of_singleton in Hin as ->.
      right. simpl. rewrite Hget. split; [by destruct dem|done].
  - intros Hr' Hin. left. revert Hr' Hin. unfold Hub.Unsubscribe.
    destruct (ContainerGet (Demand.CID dem)); [|intros; by exists r'].
    destruct (Hub.Ressource _ _ _ _) as [res|]; [|intros; by exists r'].
    destruct (Hub.store h !! res); [|intros; by exists r'].
    destruct (bool_decide _); [|intros; by exists r'].
    apply update_receivers, RemoveClient_receivers.
  - intros Hr' Hin. left. by eapply ClientLeave_receivers.
  - intros Hr' Hin. left. revert Hr' Hin.
    destruct (Hub.started_with rp0 (Hub.spawned h)) as [container|];
      [|intros; by exists r'].
    destruct (Hub.pc_of pcs rp0); simpl; try (intros; by exists r').
    + by apply update_receivers.
    + destruct next as [set|]; simpl; [|intros; by exists r'].
      rewrite deliver_store. intros; by exists r'.
    + by apply update_receivers.
    + intros Hr' Hin. exists r'.
      by rewrite (RemoveRessource_receivers _ _ _ _ _ _ Hr' Hin).
Qed.

(** *** A client is sent the frames of what it has demanded *)

Lemma demanded_step hist s e :
  demanded ContainerGet hist s.1 →
  demanded ContainerGet (hist ++ [e]) (Hub.step ContainerGet s e).1.
Proof.
  intros [Hrec Hsent]. split.
  - intros rp r' c Hr' Hin. rewrite elem_of_app.
    destruct (step_receivers s e rp r' c Hr' Hin)
      as [(r & Hr & Hc & <- & <-)|[-> Hknown]].
    + destruct (Hrec rp r c Hr Hc) as [? ?]. split; [by left|done].
    + split; [|done]. right. apply list_elem_of_here.
  - intros c f Hf.
    destruct (step_frames_cases s e) as [[Hfr Hib]|(rp & set & Hd)].
    + unfold Hub.received in Hf. rewrite Hib in Hf.
      destruct (Hsent c f Hf) as (fr & Hfr' & Hdem & Hknown). exists fr.
      rewrite Hfr. split; [done|]. split; [|done]. apply elem_of_app. by left.
    + rewrite Hd in *.
      destruct (deliver_received s.1 rp set c) as [[ext Hpre] (n & Hn & Hnew)].
      rewrite Hn in Hf. apply elem_of_app in Hf as [Hf|Hf].
      * destruct (Hsent c f Hf) as (fr & Hfr' & Hdem & Hknown). exists fr.
        split; [|split; [apply elem_of_app; by left|done]].
        rewrite Hpre. by apply lookup_app_l_Some.
      * apply elem_of_replicate in Hf as [-> Hn0].
        destruct Hnew as (r & Hr & Hin & Hfr); [lia|].
        eexists. split; [exact Hfr|]. simpl.
        destruct (Hrec rp r c Hr Hin) as [? ?].
        split; [apply elem_of_app; by left|done].
Qed.

Lemma demanded_steps evs : ∀ hist s,
  demanded ContainerGet hist s.1 →
  demanded ContainerGet (hist ++ evs) (foldl (Hub.step ContainerGet) s evs).1.
Proof.
  induction evs as [|e evs IH]; intros hist s Hd; simpl.
  { by rewrite app_nil_r. }
  replace (hist ++ e :: evs) with ((hist ++ [e]) ++ evs)
    by by rewrite <- app_assoc.
  apply IH. by apply demanded_step.
Qed.

Lemma demanded_schedule evs :
  demanded ContainerGet evs (Hub.schedule ContainerGet evs).1.
Proof.
  apply (demanded_steps evs [] (Hub.NewHub, ∅)). split.
  - by intros rp r c Hr.
  - by intros c f Hf%elem_of_nil.
Qed.

(** *** Frames are sent in the order of their allocation and are kept *)






(** *** After a client has left *)







End Deliveries.

(** X5. In every schedule from [NewHub], a frame in a client's inbox is an
    allocated frame whose container id and kind the client has demanded:
    the schedule has served a [Subscribe] demand of that client for that id
    and kind, and the inventory knows the id. *)
Theorem client_is_sent_what_it_demanded
  (ContainerGet : string → option ContainerPtr) (evs : list Hub.event)
  (c : ClientPtr) (f : FramePtr) :
  let h := (Hub.schedule ContainerGet evs).1 in
  f ∈ Hub.received c h →
  ∃ fr, Hub.frames h !! f = Some fr
        ∧ Hub.Serve_Subscribe
            (Demand.mk (ResponseFrame.Type_ fr) (ResponseFrame.CID fr) c)
          ∈ evs
        ∧ is_Some (ContainerGet (ResponseFrame.CID fr)).
Proof.
  intros h Hf.
  destruct (demanded_schedule ContainerGet evs) as [_ Hsent].
  exact (Hsent c f Hf).
Qed.

(** Client 10 has demanded the metrics of ["c1"] and has been sent their
    first frame. *)
Lemma client_is_sent_what_it_demanded_witness :
  let evs := [Hub.Serve_Subscribe demand_A; Hub.Goroutine 0 None;
              Hub.Goroutine 0 (Some "cpu 1")] in
  let h := (Hub.schedule inventory1 evs).1 in
  0 ∈ Hub.received 10 h
  ∧ ∃ fr, Hub.frames h !! 0 = Some fr
          ∧ Hub.Serve_Subscribe
              (Demand.mk (ResponseFrame.Type_ fr) (ResponseFrame.CID fr) 10)
            ∈ evs
          ∧ is_Some (inventory1 (ResponseFrame.CID fr)).
Proof.
  intros evs h.
  assert (Hf : 0 ∈ Hub.received 10 h).
  { change (0 ∈ [0]). apply list_elem_of_here. }
  split; [exact Hf|].
  exact (client_is_sent_what_it_demanded inventory1 evs 10 0 Hf).
Defined.




(** ** After an [Unsubscribe] *)

Section AfterUnsubscribe.

Variable ContainerGet : string → option ContainerPtr.






End AfterUnsubscribe.



(** ** The websocket handlers' loops *)

Section Streams.

Variable con_WriteJSON : string → string → option string.





Lemma metrics_loop_ok sets :
  Forall (λ e, con_WriteJSON "metric_set" e = None) sets →
  API.metrics_loop con_WriteJSON sets None
  = API.WriteJSON "metric_set" <$> sets.
Proof.
  induction 1 as [|set rest Hok _ IH]; simpl; [done|].
  by rewrite Hok, IH.
Qed.

Lemma metrics_loop_fail pre bad post :
  Forall (λ e, con_WriteJSON "metric_set" e = None) pre →
  con_WriteJSON "metric_set" bad ≠ None →
  API.metrics_loop con_WriteJSON (pre ++ bad :: post) None
  = (API.WriteJSON "metric_set" <$> pre ++ [bad])
    ++ match post with [] => [] | _ :: _ => [API.Close] end.
Proof.
  intros Hpre Hbad. induction Hpre as [|set rest Hok _ IH]; simpl.
  - destruct (con_WriteJSON "metric_set" bad); [|done]. by destruct post.
  - by rewrite Hok, IH.
Qed.

Lemma metrics_loop_no_Done sets : ∀ err,
  API.Done ∉ API.metrics_loop con_WriteJSON sets err.
Proof.
  induction sets as [|set rest IH]; intros err; simpl.
  { apply not_elem_of_nil. }
  destruct err.
  - by intros ?%list_elem_of_singleton.
  - apply not_elem_of_cons. split; [done|apply IH].
Qed.

End Streams.



(** X10. After a successful upgrade, [metricsWS] writes the sets of the
    stream in order, up to and including the first one whose write fails.
    It tests the error of a write only when the next set arrives: it then
    closes the connection, and when the failed write was that of the last
    set the connection is not closed.  It does not close the connection
    when the stream ends without a failure, and it never sends on
    [done]. *)
Theorem metricsWS_notices_failure_at_next_set
  (Controller_Container : string → ContainerPtr)
  (MetricsStream : ContainerPtr → list string)
  (con_WriteJSON : string → string → option string)
  (allocated : nat) (id : string) :
  Controller_Container id ≤ allocated →
  let sets := MetricsStream (Controller_Container id) in
  let written := λ e, con_WriteJSON "metric_set" e = None in
  let out := API.metricsWS Controller_Container MetricsStream con_WriteJSON
               None allocated id in
  (Forall written sets → out = API.WriteJSON "metric_set" <$> sets)
  ∧ (∀ pre bad post, sets = pre ++ bad :: post →
       Forall written pre → ¬ written bad →
       out = (API.WriteJSON "metric_set" <$> pre ++ [bad])
             ++ match post with [] => [] | _ :: _ => [API.Close] end)
  ∧ (API.Done ∉ out).
Proof.
  intros Hle sets written out.
  assert (Hout : out = API.metrics_loop con_WriteJSON sets None).
  { subst out. unfold API.metricsWS. simpl. rewrite decide_False by lia. done. }
  rewrite Hout. split; [apply metrics_loop_ok|].
  split; [|apply metrics_loop_no_Done].
  intros pre bad post -> Hpre Hbad. by apply metrics_loop_fail.
Qed.

(** The write of the last set fails: nothing follows it. *)
Lemma metricsWS_notices_failure_at_next_set_witness :
  let lookup := λ id : string, if String.eqb id "c1" then 1 else 0 in
  let stream := λ _ : nat, ["a"; "b"] in
  let write := λ (_ e : string),
    if String.eqb e "b" then Some "broken pipe" else None in
  lookup "c1" ≤ 1
  ∧ API.metricsWS lookup stream write None 1 "c1"
    = [API.WriteJSON "metric_set" "a"; API.WriteJSON "metric_set" "b"].
Proof.
  intros lookup stream write.
  assert (Hle : lookup "c1" ≤ 1) by (cbv; lia).
  split; [exact Hle|].
  refine (proj1 (proj2
            (metricsWS_notices_failure_at_next_set lookup stream write 1 "c1" Hle))
            ["a"] "b" [] eq_refl _ _).
  - by repeat constructor.
  - discriminate.
Defined.

(** ** The event handler over a stream *)

Section EventStream.

Variable Inventory : Type.
Variables Add Stop Remove : string → Inventory → Inventory * option string.

Lemma handle_dispatch event inv :
  let res := Controller.handle Inventory Add Stop Remove event inv in
  Controller.inventory_calls res.2 = from_option (λ c, [c]) [] (dispatch event)
  ∧ res.1 = from_option (apply_call Add Stop Remove inv) inv (dispatch event)
  ∧ length (Controller.logs res.2)
    = if is_container_event event then 1 else 0.
Proof.
  unfold Controller.handle, dispatch, is_container_event.
  destruct (String.eqb (Controller.Type_ event) Controller.ContainerEventType);
    simpl; [|done].
  destruct (String.eqb (Controller.Status event) "start").
  { unfold Controller.ContainerStart.
    destruct (Add (Controller.ID event) inv) as [inv' [err|]] eqn:HA; simpl;
      rewrite ?HA; done. }
  destruct (String.eqb (Controller.Status event) "stop").
  { unfold Controller.ContainerStop.
    destruct (Stop (Controller.ID event) inv) as [inv' [err|]] eqn:HA; simpl;
      rewrite ?HA; done. }
  destruct (String.eqb (Controller.Status event) "destroy").
  { unfold Controller.ContainerDestroy.
    destruct (Remove (Controller.ID event) inv) as [inv' [err|]] eqn:HA; simpl;
      rewrite ?HA; done. }
  done.
Qed.

Lemma handle_all_messages events : ∀ inv,
  let res := Controller.handle_all Inventory Add Stop Remove
               (Controller.IsMessage <$> events) inv in
  Controller.inventory_calls res.2 = omap dispatch events
  ∧ res.1 = foldl (apply_call Add Stop Remove) inv (omap dispatch events)
  ∧ length (Controller.logs res.2)
    = length (filter (λ e, is_container_event e = true) events).
Proof.
  induction events as [|event rest IH]; intros inv; [done|].
  rewrite fmap_cons, handle_all_cons. cbv zeta.
  destruct (handle_dispatch event inv) as (Hc & Hi & Hl).
  destruct (IH (Controller.handle Inventory Add Stop Remove event inv).1)
    as (IHc & IHi & IHl).
  cbn [fst snd]. unfold Controller.inventory_calls, Controller.logs in *.
  rewrite !List.filter_app, length_app, IHc, IHi, IHl, Hc, Hi, Hl. clear.
  simpl omap. unfold is_container_event.
  destruct (dispatch event) as [call|] eqn:Hd; simpl.
  - assert (String.eqb (Controller.Type_ event) Controller.ContainerEventType
            = true) as Hty.
    { unfold dispatch in Hd.
      by destruct (String.eqb (Controller.Type_ event)
                     Controller.ContainerEventType). }
    rewrite Hty, filter_cons_True by done. done.
  - destruct (String.eqb (Controller.Type_ event) Controller.ContainerEventType)
      eqn:Hty.
    + rewrite filter_cons_True by done. done.
    + rewrite filter_cons_False by (by rewrite Hty). done.
Qed.

Lemma handle_all_app pre sets : ∀ inv,
  let first := Controller.handle_all Inventory Add Stop Remove
                 (Controller.IsMessage <$> pre) inv in
  let others := Controller.handle_all Inventory Add Stop Remove sets first.1 in
  Controller.handle_all Inventory Add Stop Remove
    ((Controller.IsMessage <$> pre) ++ sets) inv
  = (others.1, first.2 ++ others.2).
Proof.
  induction pre as [|event rest IH]; intros inv.
  { simpl. by destruct (Controller.handle_all _ _ _ _ sets inv). }
  rewrite fmap_cons, <- app_comm_cons, !handle_all_cons. cbv zeta.
  rewrite IH. cbn [fst snd]. by rewrite app_assoc.
Qed.

End EventStream.

(** X11. Over a stream of messages, [HandleEvents] calls the inventory
    once for each container event with status "start", "stop" or
    "destroy", in the order of the stream, and the inventory it ends with
    is the result of these calls one after the other.  The errors the calls
    return change neither.  It writes one log entry when it starts and one
    per container event, and it does not panic. *)
Theorem HandleEvents_calls_in_order
  (Inventory : Type)
  (Add Stop Remove : string → Inventory → Inventory * option string)
  (events : list Controller.Message) (inv : Inventory) :
  let res := Controller.HandleEvents Inventory Add Stop Remove
               (inl (Controller.IsMessage <$> events)) inv in
  Controller.inventory_calls res.2 = omap dispatch events
  ∧ res.1 = foldl (apply_call Add Stop Remove) inv (omap dispatch events)
  ∧ length (Controller.logs res.2)
    = 1 + length (filter (λ e, is_container_event e = true) events)
  ∧ Controller.Panic ∉ res.2.
Proof.
  intros res. subst res. unfold Controller.HandleEvents.
  destruct (handle_all_messages Inventory Add Stop Remove events inv)
    as (Hc & Hi & Hl).
  assert (Hp : Controller.Panic
               ∉ (Controller.handle_all Inventory Add Stop Remove
                    (Controller.IsMessage <$> events) inv).2).
  { clear. revert inv. induction events as [|event rest IH]; intros inv.
    { apply not_elem_of_nil. }
    rewrite fmap_cons, handle_all_cons. cbv zeta. cbn [snd].
    apply not_elem_of_app. split; [|apply IH].
    unfold Controller.handle.
    destruct (negb _); [by intros ?%list_elem_of_singleton|].
    destruct (String.eqb _ "start").
    { unfold Controller.ContainerStart, Controller.logEventExec.
      destruct (Add _ inv) as [inv' [err|]]; simpl;
        rewrite !elem_of_cons, elem_of_nil; intuition discriminate. }
    destruct (String.eqb _ "stop").
    { unfold Controller.ContainerStop, Controller.logEventExec.
      destruct (Stop _ inv) as [inv' [err|]]; simpl;
        rewrite !elem_of_cons, elem_of_nil; intuition discriminate. }
    destruct (String.eqb _ "destroy").
    { unfold Controller.ContainerDestroy, Controller.logEventExec.
      destruct (Remove _ inv) as [inv' [err|]]; simpl;
        rewrite !elem_of_cons, elem_of_nil; intuition discriminate. }
    simpl. rewrite !elem_of_cons, elem_of_nil; intuition discriminate. }
  destruct (Controller.handle_all Inventory Add Stop Remove
              (Controller.IsMessage <$> events) inv) as [inv' tr].
  cbn [fst snd] in *. split; [done|]. split; [done|]. split.
  - simpl. by rewrite Hl.
  - apply not_elem_of_cons. split; [done|exact Hp].
Qed.

(** X12. A set whose data is not a message ends [HandleEvents] with a
    panic: what came before it is handled as usual, and nothing that
    follows it in the stream is looked at. *)
Theorem HandleEvents_stops_at_non_message
  (Inventory : Type)
  (Add Stop Remove : string → Inventory → Inventory * option string)
  (pre : list Controller.Message) (post : list Controller.Data)
  (inv : Inventory) :
  let sets := (Controller.IsMessage <$> pre) ++ Controller.NotMessage :: post in
  let res := Controller.HandleEvents Inventory Add Stop Remove (inl sets) inv in
  let before := Controller.HandleEvents Inventory Add Stop Remove
                  (inl (Controller.IsMessage <$> pre)) inv in
  res.2 = before.2 ++ [Controller.Println "handling event"; Controller.Panic]
  ∧ res.1 = before.1
  ∧ Controller.inventory_calls res.2 = omap dispatch pre
  ∧ res.1 = foldl (apply_call Add Stop Remove) inv (omap dispatch pre).
Proof.
  intros sets res before. subst sets res before. unfold Controller.HandleEvents.
  rewrite handle_all_app. cbv zeta.
  destruct (handle_all_messages Inventory Add Stop Remove pre inv)
    as (Hc & Hi & _).
  destruct (Controller.handle_all Inventory Add Stop Remove
              (Controller.IsMessage <$> pre) inv) as [inv' tr].
  cbn [fst snd] in *. simpl Controller.handle_all. cbn [fst snd].
  split; [done|]. split; [done|]. split; [|done].
  change (Controller.inventory_calls
            (Controller.Log Controller.Info
               "- CONTROLLER - running event handler..." [] :: tr ++ _))
    with (Controller.inventory_calls
            (tr ++ [Controller.Println "handling event"; Controller.Panic])).
  unfold Controller.inventory_calls in *.
  rewrite List.filter_app, Hc. simpl. apply app_nil_r.
Qed.

(** ** The later revision of the event handler *)

Section EventStreamAbout.

Variable Inventory : Type.
Variables Add Stop Remove : string → Inventory → Inventory * option string.

Lemma handle_with_about_UpdateAbout event inv :
  let res := Controller.handle Inventory Add Stop Remove event inv in
  let res' := Controller.handle_with_about Inventory Add Stop Remove event inv in
  res'.1 = res.1
  ∧ filter (λ e, is_UpdateAbout e = false) res'.2 = res.2
  ∧ length (filter (λ e, is_UpdateAbout e = true) res'.2)
    = if is_container_event event then 1 else 0.
Proof.
  unfold Controller.handle_with_about, Controller.handle, is_container_event.
  destruct (String.eqb (Controller.Type_ event) Controller.ContainerEventType);
    simpl; [|done].
  destruct (String.eqb (Controller.Status event) "start").
  { unfold Controller.ContainerStart.
    by destruct (Add (Controller.ID event) inv) as [inv' [err|]]. }
  destruct (String.eqb (Controller.Status event) "stop").
  { unfold Controller.ContainerStop.
    by destruct (Stop (Controller.ID event) inv) as [inv' [err|]]. }
  destruct (String.eqb (Controller.Status event) "destroy").
  { unfold Controller.ContainerDestroy.
    by destruct (Remove (Controller.ID event) inv) as [inv' [err|]]. }
  done.
Qed.

Lemma handle_all_with_about sets : ∀ inv,
  let res := Controller.handle_all Inventory Add Stop Remove sets inv in
  let res' := ControllerAbout.handle_all Inventory Add Stop Remove sets inv in
  res'.1 = res.1
  ∧ filter (λ e, is_UpdateAbout e = false) res'.2 = res.2.
Proof.
  induction sets as [|[event|] rest IH]; intros inv; [done| |done].
  simpl.
  destruct (handle_with_about_UpdateAbout event inv) as (H1 & H2 & _).
  destruct (Controller.handle_with_about Inventory Add Stop Remove event inv)
    as [inv1' tr1'].
  destruct (Controller.handle Inventory Add Stop Remove event inv) as [inv1 tr1].
  simpl in H1, H2. subst inv1' tr1.
  destruct (IH inv1) as (H3 & H4).
  destruct (ControllerAbout.handle_all Inventory Add Stop Remove rest inv1)
    as [inv2' tr2'].
  destruct (Controller.handle_all Inventory Add Stop Remove rest inv1)
    as [inv2 tr2].
  simpl in *. subst. by rewrite filter_app.
Qed.

Lemma handle_all_UpdateAbout events : ∀ inv,
  length (filter (λ e, is_UpdateAbout e = true)
            (ControllerAbout.handle_all Inventory Add Stop Remove
               (Controller.IsMessage <$> events) inv).2)
  = length (filter (λ e, is_container_event e = true) events).
Proof.
  induction events as [|event rest IH]; intros inv; [done|].
  rewrite fmap_cons. simpl.
  destruct (handle_with_about_UpdateAbout event inv) as (_ & _ & H3).
  destruct (Controller.handle_with_about Inventory Add Stop Remove event inv)
    as [inv1 tr1].
  specialize (IH inv1).
  destruct (ControllerAbout.handle_all Inventory Add Stop Remove
              (Controller.IsMessage <$> rest) inv1) as [inv2 tr2].
  simpl in *. rewrite filter_app, length_app, IH, H3.
  destruct (is_container_event event) eqn:Hc.
  - by rewrite filter_cons_True.
  - rewrite filter_cons_False; [done|]. by rewrite Hc.
Qed.

End EventStreamAbout.

(** X13. The later revision of [HandleEvents] differs from the first by
    its calls of [UpdateAbout] only: it makes the same calls on the
    inventory, ends with the same inventory, and calls [UpdateAbout] once
    per event of the container type, whatever its status, and not for the
    other events. *)
Theorem HandleEvents_refreshes_About_per_container_event
  (Inventory : Type)
  (Add Stop Remove : string → Inventory → Inventory * option string)
  (events : list Controller.Message) (inv : Inventory) :
  let get := inl (Controller.IsMessage <$> events) in
  let res := Controller.HandleEvents Inventory Add Stop Remove get inv in
  let res' := ControllerAbout.HandleEvents Inventory Add Stop Remove get inv in
  res'.1 = res.1
  ∧ filter (λ e, is_UpdateAbout e = false) res'.2 = res.2
  ∧ Controller.inventory_calls res'.2 = omap dispatch events
  ∧ length (filter (λ e, is_UpdateAbout e = true) res'.2)
    = length (filter (λ e, is_container_event e = true) events).
Proof.
  intros get res res'. subst get res res'.
  unfold ControllerAbout.HandleEvents, Controller.HandleEvents.
  pose proof (handle_all_with_about Inventory Add Stop Remove
                (Controller.IsMessage <$> events) inv) as [H1 H2].
  pose proof (handle_all_UpdateAbout Inventory Add Stop Remove events inv) as H3.
  destruct (handle_all_messages Inventory Add Stop Remove events inv)
    as (H4 & _).
  destruct (ControllerAbout.handle_all Inventory Add Stop Remove
              (Controller.IsMessage <$> events) inv) as [inv' tr'].
  destruct (Controller.handle_all Inventory Add Stop Remove
              (Controller.IsMessage <$> events) inv) as [inv0 tr0].
  simpl in *. subst inv0 tr0.
  split; [done|]. split; [by rewrite filter_cons_True|].
  split; [|by rewrite filter_cons_False].
  rewrite <- H4. unfold Controller.inventory_calls.
  clear. induction tr' as [|e tr IH]; [done|].
  destruct e; simpl; rewrite ?filter_cons_True, ?filter_cons_False by done;
    simpl; by rewrite ?IH.
Qed.

(** ** Startup: what has been started when [Init] returns *)

Ltac in_list :=
  intros; try split; intros;
  repeat match goal with
         | H : _ ∧ _ |- _ => destruct H
         | H : ∃ _, _ |- _ => destruct H
         end;
  simplify_eq/=; rewrite ?elem_of_cons, ?elem_of_nil in *;
  try done; try (intuition (discriminate || congruence)); eauto 10.

(** X14. What [Init] has started when it returns.  The event handler's
    goroutine is started exactly when the event source has started, also
    when a later step fails; the writer's goroutine and the [Init] of the
    sink are reached exactly when the event source and both stores have
    started.  [Init] returns [nil] exactly when all four have started.  A
    failure of the event source is returned without a log entry. *)
Theorem Init_started_before_failure (s : Controller.Startup) :
  let res := Controller.Init s in
  let stores_up := Controller.events_init s = None
                   ∧ Controller.images_init s = None
                   ∧ Controller.containers_init s = None in
  (Controller.Go_HandleEvents ∈ res.2 ↔ Controller.events_init s = None)
  ∧ (Controller.Go_BroadcastWriter ∈ res.2 ↔ stores_up)
  ∧ (Controller.DB_Init ∈ res.2 ↔ stores_up)
  ∧ (res.1 = None ↔ stores_up ∧ Controller.db_init s = None)
  ∧ (∀ err, Controller.events_init s = Some err →
       res = (Some err, [Controller.Log Controller.Info "- CONTROLLER - starting" [];
                         Controller.Events_Init]))
  ∧ (∀ err, Controller.events_init s = None →
       Controller.images_init s = Some err →
       res.1 = Some err ∧ Controller.Go_HandleEvents ∈ res.2).
Proof.
  intros res stores_up. subst res stores_up.
  unfold Controller.Init, Controller.Init_from_Events.
  destruct (Controller.events_init s) as [e0|].
  { simpl. repeat split; in_list. }
  destruct (Controller.images_init s) as [e1|].
  { simpl. repeat split; in_list. }
  destruct (Controller.containers_init s) as [e2|].
  { simpl. repeat split; in_list. }
  destruct (Controller.db_init s) as [e3|]; simpl; repeat split; in_list.
Qed.

(** X15. [Storage.Init] returns an error exactly when the [Init] of the
    image store or of the container store fails, and then that error.  A
    failure of the sink is logged and [nil] is returned; the sink's [Init]
    is reached exactly when [nil] is returned. *)
Theorem Storage_Init_swallows_DB_failure (s : Controller.Startup) :
  let res := Controller.Storage_Init s in
  (res.1 = None ↔ Controller.images_init s = None
                   ∧ Controller.containers_init s = None)
  ∧ (∀ err, res.1 = Some err →
       Controller.images_init s = Some err
       ∨ (Controller.images_init s = None
          ∧ Controller.containers_init s = Some err))
  ∧ (∀ err, Controller.images_init s = None →
       Controller.containers_init s = None →
       Controller.db_init s = Some err →
       res.1 = None
       ∧ last res.2 = Some (Controller.Log Controller.Error
                              "- STORAGE - (db) failed to init: %s\n" [err]))
  ∧ (Controller.DB_Init ∈ res.2 ↔ res.1 = None).
Proof.
  intros res. subst res. unfold Controller.Storage_Init.
  destruct (Controller.images_init s) as [e1|].
  { simpl. repeat split; in_list. }
  destruct (Controller.containers_init s) as [e2|].
  { simpl. repeat split; in_list. }
  destruct (Controller.db_init s) as [e3|]; simpl; repeat split; in_list.
Qed.

(** X16. [Init] of the controller over a [Storage].  It hands to [Add]
    what [Discover] has returned.  It starts the goroutine of [Links],
    calls the [Init] of the sink and logs "started" exactly when [Discover]
    and [Add] have succeeded, and then returns what the sink's [Init]
    returns: "started" is logged also when that is an error.  A failure of
    [Discover] is returned before anything else is done. *)
Theorem StorageController_Init_started
  (RawType : Type) (Discover : list RawType + string)
  (Add : list RawType → option string) (DB_Init : option string) :
  let res := StorageController.Init Discover Add DB_Init in
  let stored := ∃ rawTypes, Discover = inl rawTypes ∧ Add rawTypes = None in
  (res.1 = None ↔ stored ∧ DB_Init = None)
  ∧ (StorageController.Infoln "- CONTROLLER - started" ∈ res.2 ↔ stored)
  ∧ (StorageController.Go_Storage_Links ∈ res.2 ↔ stored)
  ∧ (StorageController.Storage_DB_Init ∈ res.2 ↔ stored)
  ∧ (stored → res.1 = DB_Init)
  ∧ (∀ rawTypes, StorageController.Storage_Add rawTypes ∈ res.2 ↔
                 Discover = inl rawTypes)
  ∧ (∀ err, Discover = inr err → res = (Some err, [StorageController.Storage_Discover])).
Proof.
  intros res stored. subst res stored. unfold StorageController.Init.
  destruct Discover as [rawTypes|e0].
  2:{ simpl. split_and!; in_list. }
  destruct (Add rawTypes) as [e1|] eqn:HAdd.
  { simpl. split_and!; in_list. }
  destruct DB_Init as [e2|]; simpl; split_and!; in_list.
Qed.

(** ** The later revision of [Init] *)

(** X17. The later revision of [Init] first calls [UpdateAbout] and
    [UpdateVolumes]; a failure of either adds one warning and nothing else.
    Whatever the two return, the steps that follow and the returned error
    are those of the first revision. *)
Theorem Init_with_about_only_warns
  (about volumes : option string) (s : Controller.Startup) :
  let res := Controller.Init s in
  let res' := Controller.Init_with_about about volumes s in
  res'.1 = res.1
  ∧ filter (λ e, is_refresh e = false) res'.2 = res.2
  ∧ length (filter (λ e, is_refresh e = true) res'.2)
    = 2 + length (omap id [about; volumes])
  ∧ res'.2 = Controller.Log Controller.Info "- CONTROLLER - starting" []
             :: filter (λ e, is_refresh e = true) res'.2
             ++ (Controller.Init_from_Events s).2.
Proof.
  intros res res'. subst res res'.
  unfold Controller.Init_with_about, Controller.Init.
  assert (Hclean : filter (λ e, is_refresh e = false) (Controller.Init_from_Events s).2
                   = (Controller.Init_from_Events s).2
                   ∧ filter (λ e, is_refresh e = true) (Controller.Init_from_Events s).2
                     = []).
  { unfold Controller.Init_from_Events.
    destruct (Controller.events_init s); [done|].
    destruct (Controller.images_init s); [done|].
    destruct (Controller.containers_init s); [done|].
    by destruct (Controller.db_init s). }
  destruct (Controller.Init_from_Events s) as [err tr]. simpl in Hclean.
  destruct Hclean as [Hc1 Hc2]. cbn [fst snd].
  destruct about as [a|], volumes as [v|]; simpl;
    rewrite ?filter_cons_True, ?filter_cons_False by done; simpl;
    rewrite ?filter_cons_True, ?filter_cons_False by done; simpl;
    rewrite ?filter_cons_True, ?filter_cons_False by done; simpl;
    rewrite ?filter_cons_True, ?filter_cons_False by done; simpl;
    rewrite ?filter_cons_True, ?filter_cons_False by done; simpl;
    rewrite Hc1, Hc2; done.
Qed.

(** ** About and Volumes *)

(** X18. [UpdateAbout] returns [nil] exactly when both calls on the engine
    succeed, and then [About] is what the two answers say, whatever it was
    before.  When [ServerVersion] fails [About] is unchanged.  When
    [ServerVersion] succeeds and [Info] fails the update is partial: the
    three version fields are new and the two counts are the old ones. *)
Theorem UpdateAbout_partial
  (ServerVersion : About.ServerVersion_t + string)
  (Info : About.Info_t + string) (about : About.t) :
  let res := About.UpdateAbout ServerVersion Info about in
  (res.2 = None ↔ (∃ version info, ServerVersion = inl version ∧ Info = inl info))
  ∧ (∀ err, ServerVersion = inr err → res = (about, Some err))
  ∧ (∀ version, ServerVersion = inl version →
       About.Version res.1 = About.sv_Version version
       ∧ About.APIVersion res.1 = About.sv_APIVersion version
       ∧ About.OS res.1 = About.sv_Os version)
  ∧ (∀ version err, ServerVersion = inl version → Info = inr err →
       res.2 = Some err
       ∧ About.ImageN res.1 = About.ImageN about
       ∧ About.ContainerN res.1 = About.ContainerN about)
  ∧ (res.2 = None →
       ∀ about', About.UpdateAbout ServerVersion Info about' = res)
  ∧ (About.ImageN res.1 ≠ About.ImageN about
     ∨ About.ContainerN res.1 ≠ About.ContainerN about → res.2 = None).
Proof.
  intros res. subst res. unfold About.UpdateAbout.
  destruct ServerVersion as [version|e0], Info as [info|e1]; simpl;
    split_and!; in_list.
Qed.

Lemma UpdateVolumes_loop (volList : list Volume.engine) : ∀ updated,
  foldl (λ updated v, updated ++ [Volume.new v]) updated volList
  = updated ++ (Volume.new <$> volList).
Proof.
  induction volList as [|v rest IH]; intros updated; simpl.
  { by rewrite app_nil_r. }
  by rewrite IH, <- app_assoc.
Qed.

(** X19. When [VolumeList] fails, [UpdateVolumes] returns the error and
    leaves [Volumes] as it was.  Otherwise [Volumes] is replaced, whatever
    it was before, by one entry per volume of the engine's answer, in the
    order of the answer, with the name, mountpoint, driver and creation
    time of the volume, and with the reference count and the size of its
    usage data, or -1 and -1 when the volume has no usage data. *)
Theorem UpdateVolumes_one_per_volume
  (VolumeList : list Volume.engine + string) (volumes : list Volume.t) :
  let res := Volume.UpdateVolumes VolumeList volumes in
  (∀ err, VolumeList = inr err → res = (volumes, Some err))
  ∧ (∀ volList, VolumeList = inl volList →
       res.2 = None
       ∧ length res.1 = length volList
       ∧ Volume.Name <$> res.1 = Volume.e_Name <$> volList
       ∧ (∀ i v, volList !! i = Some v →
            ∃ vol, res.1 !! i = Some vol
              ∧ Volume.Name vol = Volume.e_Name v
              ∧ Volume.Mountpoint vol = Volume.e_Mountpoint v
              ∧ Volume.Driver vol = Volume.e_Driver v
              ∧ Volume.Created vol = Volume.e_CreatedAt v
              ∧ match Volume.UsageData v with
                | None => Volume.UsedBy vol = (-1)%Z ∧ Volume.Size vol = (-1)%Z
                | Some usage => Volume.UsedBy vol = Volume.RefCount usage
                                ∧ Volume.Size vol = Volume.u_Size usage
                end)
       ∧ ∀ volumes', Volume.UpdateVolumes VolumeList volumes' = res).
Proof.
  intros res. subst res. split.
  { by intros err ->. }
  intros volList ->. unfold Volume.UpdateVolumes. cbn [fst snd].
  rewrite UpdateVolumes_loop, app_nil_l.
  split; [done|]. split; [by rewrite length_fmap|]. split.
  { rewrite <- list_fmap_compose. apply list_fmap_ext. intros _ v _.
    unfold Volume.new. simpl. by destruct (Volume.UsageData v). }
  split; [|done]. intros i v Hi. exists (Volume.new v).
  rewrite list_lookup_fmap, Hi. split; [done|].
  unfold Volume.new. by destruct (Volume.UsageData v).
Qed.
